(** * Focus-area extraction of the CodeWhisperer chat editor context

    A shallow embedding of
    [src/codewhispererChat/editor/context/focusArea/focusAreaExtractor.ts]
    (class [FocusAreaContextExtractor]) and the properties of its range
    trimming, range expansion and name-list curation.

    JavaScript strings are sequences of UTF-16 code units, so a string is a
    [list N] and its [.length] is the length of that list.  Code that can
    throw lives in the [outcome] monad below. *)

From stdpp Require Import base option list numbers relations sorting strings.

Local Open Scope nat_scope.

(** ** JavaScript strings *)

Abbreviation jsstring := (list N).

(** ASCII literals, for language identifiers and examples. *)
Fixpoint js (s : string) : jsstring :=
  match s with
  | EmptyString => []
  | String a s' => Ascii.N_of_ascii a :: js s'
  end.

(** [Array.prototype.join] on an array of strings. *)
Fixpoint join (sep : jsstring) (parts : list jsstring) : jsstring :=
  match parts with
  | [] => []
  | [p] => p
  | p :: rest => p ++ sep ++ join sep rest
  end.

(** The code units [String.prototype.trim] strips: ECMAScript WhiteSpace
    (TAB, VT, FF, SP, NBSP, ZWNBSP and the Zs category) and LineTerminator
    (LF, CR, LS, PS). *)
Definition isWhiteSpace (c : N) : bool :=
  bool_decide (c ∈ [0x9; 0xA; 0xB; 0xC; 0xD; 0x20; 0xA0; 0x1680; 0x2028;
                    0x2029; 0x202F; 0x205F; 0x3000; 0xFEFF]%N)
  || (bool_decide (0x2000 ≤ c)%N && bool_decide (c ≤ 0x200A)%N).

Fixpoint trimStart (s : jsstring) : jsstring :=
  match s with
  | [] => []
  | c :: s' => if isWhiteSpace c then trimStart s' else s
  end.

Definition trimEnd (s : jsstring) : jsstring := reverse (trimStart (reverse s)).

Definition trim (s : jsstring) : jsstring := trimEnd (trimStart s).

(** [s.substring(from, to)] for [from ≤ to]; both indices are clamped to the
    length of [s] as in JavaScript. *)
Definition substring (s : jsstring) (from to : nat) : jsstring :=
  take (to - from) (drop from s).

(** ** Exceptions *)

Inductive Error : Type :=
  | IllegalArgument            (* [new Position] with a negative coordinate *)
  | IllegalLine (n : Z)        (* [document.lineAt(n)] outside [0, lineCount) *)
  | TypeError                  (* property access on undefined or null *)
  | FinderFailure.             (* a rejected promise of the name finder *)

Inductive outcome (A : Type) : Type :=
  | Returned (a : A)
  | Thrown (e : Error)
  | OutOfFuel.
Arguments Returned {A} a.
Arguments Thrown {A} e.
Arguments OutOfFuel {A}.

#[export] Instance outcome_ret : MRet outcome := λ A a, Returned a.
#[export] Instance outcome_bind : MBind outcome := λ A B f m,
  match m with
  | Returned a => f a
  | Thrown e => Thrown e
  | OutOfFuel => OutOfFuel
  end.

(** ** Positions, ranges, selections and documents *)

(** Modelled from the spec: the [Position], [Range], [Selection] and
    [TextDocument] classes come from the [vscode] module, which is not part of
    src/.  §3 of the spec fixes zero-based non-negative coordinates and the
    invariant start ≤ end of a range; §6 fixes that a line index is bounded by
    [0, lineCount).  The editor realises them as follows: [new Position]
    rejects a negative coordinate, [new Range] stores its two positions in
    document order (it swaps them when the first is not before the second),
    [lineAt] rejects an index outside the document, and [getText(range)]
    first clamps the range to the document. *)
Record Position : Type := mkPosition { line : nat; character : nat }.

Record Range : Type := mkRange { start : Position; end_ : Position }.

Record Selection : Type := mkSelection { anchor : Position; active : Position }.

#[export] Instance Position_eq_dec : EqDecision Position.
Proof. solve_decision. Defined.
#[export] Instance Range_eq_dec : EqDecision Range.
Proof. solve_decision. Defined.

Definition newPosition (l c : Z) : outcome Position :=
  if bool_decide (l < 0)%Z then Thrown IllegalArgument
  else if bool_decide (c < 0)%Z then Thrown IllegalArgument
  else Returned (mkPosition (Z.to_nat l) (Z.to_nat c)).

Definition isBefore (p q : Position) : bool :=
  bool_decide (line p < line q)
  || (bool_decide (line p = line q) && bool_decide (character p < character q)).

Definition isBeforeOrEqual (p q : Position) : bool :=
  bool_decide (line p < line q)
  || (bool_decide (line p = line q) && bool_decide (character p ≤ character q)).

(** The body of the [Range] constructor once both positions exist. *)
Definition orderedRange (a b : Position) : Range :=
  if isBefore a b then mkRange a b else mkRange b a.

Definition newRange (startLine startCharacter endLine endCharacter : Z)
  : outcome Range :=
  s ← newPosition startLine startCharacter;
  e ← newPosition endLine endCharacter;
  mret (orderedRange s e).

(** A [Selection] is a [Range] over its anchor and active positions. *)
Definition selectionRange (s : Selection) : Range :=
  orderedRange (anchor s) (active s).

Definition newSelection (anchorLine anchorCharacter activeLine activeCharacter : Z)
  : outcome Selection :=
  a ← newPosition anchorLine anchorCharacter;
  b ← newPosition activeLine activeCharacter;
  mret (mkSelection a b).

(** The Range invariant of §3. *)
Definition rangeOrdered (r : Range) : Prop := isBeforeOrEqual (start r) (end_ r) = true.

Definition isEmpty (r : Range) : bool := bool_decide (start r = end_ r).

Record TextDocument : Type := mkTextDocument {
  lines : list jsstring;
  eol : jsstring;
  languageId : jsstring
}.

Record TextLine : Type := mkTextLine { lineNumber : nat; text : jsstring }.

(** [TextLine.range]: the line without its line break. *)
Definition range (l : TextLine) : Range :=
  mkRange (mkPosition (lineNumber l) 0) (mkPosition (lineNumber l) (length (text l))).

Definition lineCount (d : TextDocument) : nat := length (lines d).

Definition lineText (d : TextDocument) (n : nat) : jsstring :=
  default [] (lines d !! n).

Definition lineAt (d : TextDocument) (n : Z) : outcome TextLine :=
  if bool_decide (n < 0)%Z || bool_decide (Z.of_nat (lineCount d) ≤ n)%Z
  then Thrown (IllegalLine n)
  else Returned (mkTextLine (Z.to_nat n) (lineText d (Z.to_nat n))).

Definition validatePosition (d : TextDocument) (p : Position) : Position :=
  if bool_decide (lineCount d = 0) then mkPosition 0 0
  else if bool_decide (lineCount d ≤ line p)
       then mkPosition (lineCount d - 1) (length (lineText d (lineCount d - 1)))
       else mkPosition (line p) (character p `min` length (lineText d (line p))).

Definition validateRange (d : TextDocument) (r : Range) : Range :=
  let s := validatePosition d (start r) in
  let e := validatePosition d (end_ r) in
  if bool_decide (s = start r) && bool_decide (e = end_ r) then r
  else orderedRange s e.

(** [document.getText(range)]. *)
Definition getTextInRange (d : TextDocument) (r0 : Range) : jsstring :=
  let r := validateRange d r0 in
  if isEmpty r then []
  else if bool_decide (line (start r) = line (end_ r))
  then substring (lineText d (line (start r))) (character (start r)) (character (end_ r))
  else
    join (eol d)
      (drop (character (start r)) (lineText d (line (start r)))
       :: take (line (end_ r) - line (start r) - 1) (drop (S (line (start r))) (lines d))
       ++ [take (character (end_ r)) (lineText d (line (end_ r)))]).

(** [document.getText()]: the whole text. *)
Definition getFullText (d : TextDocument) : jsstring := join (eol d) (lines d).

(** ** RangeBoundAdjuster: trimming and expanding a range *)

Definition focusAreaCharLimit : nat := 200.

Definition getRangeText (document : TextDocument) (r : Range) : jsstring :=
  getTextInRange document r.

(** The [while] condition of [trimRangeAccordingToLimits]. *)
Definition trimGuard (document : TextDocument) (importantRange : Range) : bool :=
  bool_decide (focusAreaCharLimit < length (getRangeText document importantRange))
  && (bool_decide (line (start importantRange) ≠ line (end_ importantRange))
      || (bool_decide (line (start importantRange) = line (end_ importantRange))
          && bool_decide (character (start importantRange)
                          ≠ character (end_ importantRange)))).

(** One pass through the body of that loop, when it does not [break]. *)
Definition trimBody (document : TextDocument) (importantRange : Range)
  : outcome Range :=
  previous ← lineAt document (Z.of_nat (line (end_ importantRange)) - 1);
  newRange (Z.of_nat (line (start importantRange)))
           (Z.of_nat (character (start importantRange)))
           (Z.of_nat (line (end_ importantRange)) - 1)
           (Z.of_nat (character (end_ (range previous)))).

Fixpoint trimLoop (fuel : nat) (document : TextDocument) (importantRange : Range)
  : outcome Range :=
  match fuel with
  | O => OutOfFuel
  | S fuel' =>
      if trimGuard document importantRange then
        if bool_decide (line (end_ importantRange) = 0) then Returned importantRange
        else
          shorter ← trimBody document importantRange;
          trimLoop fuel' document shorter
      else Returned importantRange
  end.

(** Each pass lowers [2 * end.line + (1 if the range is on one line)], so this
    much fuel is never used up (lemma [trimRange_not_OutOfFuel] below). *)
Definition trimFuel (importantRange : Range) : nat :=
  2 * (line (start importantRange) `max` line (end_ importantRange)) + 3.

Definition trimRangeAccordingToLimits (document : TextDocument) (importantRange : Range)
  : outcome Range :=
  trimLoop (trimFuel importantRange) document importantRange.

(** The [while] condition of [getExtendedCodeBlockRange]. *)
Definition expandGuard (document : TextDocument) (importantRange : Range) : bool :=
  bool_decide (length (getRangeText document importantRange) < focusAreaCharLimit)
  && (bool_decide (line (start importantRange) ≠ 0)
      || bool_decide (line (end_ importantRange) ≠ lineCount document)).

(** One pass through the body of that loop: the new range and the new value
    of [addLineBefore]. *)
Definition expandBody (document : TextDocument) (importantRange : Range)
    (addLineBefore : bool) : outcome (Range * bool) :=
  if addLineBefore && bool_decide (line (start importantRange) ≠ 0) then
    previous ← lineAt document (Z.of_nat (line (start importantRange)) - 1);
    grown ← newRange (Z.of_nat (line (start importantRange)) - 1)
                     (Z.of_nat (character (end_ (range previous))))
                     (Z.of_nat (line (end_ importantRange)))
                     (Z.of_nat (character (end_ importantRange)));
    mret (grown, false)
  else
    following ← lineAt document (Z.of_nat (line (end_ importantRange)) + 1);
    grown ← newRange (Z.of_nat (line (start importantRange)))
                     (Z.of_nat (character (start importantRange)))
                     (Z.of_nat (line (end_ importantRange)) + 1)
                     (Z.of_nat (character (end_ (range following))));
    mret (grown, true).

Fixpoint expandLoop (fuel : nat) (document : TextDocument) (importantRange : Range)
    (addLineBefore : bool) : outcome Range :=
  match fuel with
  | O => OutOfFuel
  | S fuel' =>
      if expandGuard document importantRange then
        '(grown, addLineBefore') ← expandBody document importantRange addLineBefore;
        expandLoop fuel' document grown addLineBefore'
      else Returned importantRange
  end.

(** Each pass that does not throw lowers
    [start.line + (lineCount - end.line)], so this much fuel is never used up
    on a range in document order (lemma [expand_not_OutOfFuel] below). *)
Definition expandFuel (document : TextDocument) (importantRange : Range) : nat :=
  line (start importantRange) + lineCount document + 1.

Definition getExtendedCodeBlockRange (document : TextDocument) (importantRange : Range)
  : outcome Range :=
  expandLoop (expandFuel document importantRange) document importantRange true.

(** The loop of [getExtendedCodeBlockRange] as a step relation on its state
    (the range and [addLineBefore]): a step is one pass whose condition held
    and whose body did not throw. *)
Definition expandStep (document : TextDocument) (s s' : Range * bool) : Prop :=
  expandGuard document s.1 = true ∧ expandBody document s.1 s.2 = Returned s'.

(** ** What the name finder returns *)

(** Modelled from the spec: the result of the name finder is typed [any] in
    the source and its declarations (package [@aws/fully-qualified-names] and
    [./model]) are not part of src/.  §6 gives its shape,
    [{simple: {usedSymbols, declaredSymbols}, fullyQualified: {usedSymbols}}]
    or undefined, and §3 gives a fully qualified name as a pair of strings.
    An object may lack either property, as the object literal [{}] does. *)
Module Simple.
Record name : Type := mkName { symbol : jsstring }.
Record t : Type := mk { usedSymbols : list name; declaredSymbols : list name }.
End Simple.

Module FullyQualified.
Record name : Type := mkName { source : jsstring; symbol : jsstring }.
Record t : Type := mk { usedSymbols : list name }.
End FullyQualified.

Abbreviation FullyQualifiedName := FullyQualified.name.

#[export] Instance FullyQualifiedName_eq_dec : EqDecision FullyQualifiedName.
Proof. solve_decision. Defined.

Inductive NamesValue : Type :=
  | NamesUndefined
  | NamesNull
  | NamesObject (simple : option Simple.t) (fullyQualified : option FullyQualified.t).

Record Location : Type := mkLocation { locationLine : nat; locationCharacter : nat }.
Record Extent : Type := mkExtent { extentStart : Location; extentEnd : Location }.

(** The four [findNamesWithInExtent] entry points.  A rejected promise is a
    [Thrown] outcome. *)
Record NameFinder : Type := mkNameFinder {
  Java : jsstring → Extent → outcome NamesValue;
  Tsx : jsstring → Extent → outcome NamesValue;
  Python : jsstring → Extent → outcome NamesValue;
  TypeScript : jsstring → Extent → outcome NamesValue
}.

(** ** Arrays, sets and maps of JavaScript *)

Section js_collections.
Context {A : Type} `{EqDecision A}.

(** Insertion into a [Set] (or a [Map] by key) in iteration order: an
    element already seen is skipped, so the first occurrence of each
    element fixes its place. *)
Fixpoint dedupFrom (seen : list A) (l : list A) : list A :=
  match l with
  | [] => []
  | x :: l' =>
      if decide (x ∈ seen) then dedupFrom seen l'
      else x :: dedupFrom (x :: seen) l'
  end.

Definition dedupFirst (l : list A) : list A := dedupFrom [] l.

(** [Array.prototype.sort] with the comparator [(a, b) => key(a) - key(b)].
    The sort is stable (ECMAScript 2019), which fixes its result; a stable
    insertion sort computes it. *)
Fixpoint insertByKey (key : A → nat) (x : A) (l : list A) : list A :=
  match l with
  | [] => [x]
  | y :: l' => if decide (key x ≤ key y) then x :: y :: l'
               else y :: insertByKey key x l'
  end.

Fixpoint sortByKey (key : A → nat) (l : list A) : list A :=
  match l with
  | [] => []
  | x :: l' => insertByKey key x (sortByKey key l')
  end.
End js_collections.

(** ** NameListCurator *)

(** [fileText.replace(/([\uE000-\uF8FF]|\uD83C[\uDF00-\uDFFF]|\uD83D[\uDC00-\uDDFF])/g, '')]:
    the regular expression has no [u] flag, so it matches code units. *)
Fixpoint stripPrivateUse (s : jsstring) : jsstring :=
  match s with
  | [] => []
  | c :: rest =>
      if bool_decide (0xE000 ≤ c)%N && bool_decide (c ≤ 0xF8FF)%N
      then stripPrivateUse rest
      else
        match rest with
        | c' :: rest' =>
            if (bool_decide (c = 0xD83C%N)
                && bool_decide (0xDF00 ≤ c')%N && bool_decide (c' ≤ 0xDFFF)%N)
               || (bool_decide (c = 0xD83D%N)
                   && bool_decide (0xDC00 ≤ c')%N && bool_decide (c' ≤ 0xDDFF)%N)
            then stripPrivateUse rest'
            else c :: stripPrivateUse rest
        | [] => [c]
        end
  end.

(** [selection] is undefined when the editor has no visible range; reading
    [selection.start] then throws. *)
Definition findNamesInRange (finder : NameFinder) (fileText : jsstring)
    (selection : option Range) (languageId : jsstring) : outcome NamesValue :=
  let _ := stripPrivateUse fileText in
  match selection with
  | None => Thrown TypeError
  | Some selection =>
      let startLocation :=
        mkLocation (line (start selection)) (character (start selection)) in
      let endLocation :=
        mkLocation (line (end_ selection)) (character (end_ selection)) in
      let extent := mkExtent startLocation endLocation in
      if decide (languageId = js "java") then Java finder fileText extent
      else if decide (languageId = js "javascript") then Tsx finder fileText extent
      else if decide (languageId = js "javascriptreact") then Tsx finder fileText extent
      else if decide (languageId = js "typescriptreact") then Tsx finder fileText extent
      else if decide (languageId = js "python") then Python finder fileText extent
      else if decide (languageId = js "typescript") then TypeScript finder fileText extent
      else Returned (NamesObject None None)
  end.

Definition maxUsedFullyQualifiedNamesLength : nat := 25.

(** The sort key of [prepareFqns]. *)
Definition combinedLength (name : FullyQualifiedName) : nat :=
  length (FullyQualified.source name) + length (FullyQualified.symbol name).

(** The [Map] of [prepareFqns] is keyed by [JSON.stringify([source, symbol])],
    which tells two pairs of strings apart exactly when they differ, and maps
    a key to the pair it was made from; its values in insertion order are the
    first occurrences of the pairs. *)
Definition prepareFqns (names : NamesValue)
  : outcome (list FullyQualifiedName * bool) :=
  match names with
  | NamesUndefined | NamesNull => Returned ([], false)
  | NamesObject _ None => Thrown TypeError
  | NamesObject _ (Some fullyQualified) =>
      let usedFullyQualifiedNames :=
        dedupFirst (FullyQualified.usedSymbols fullyQualified) in
      if bool_decide (maxUsedFullyQualifiedNamesLength < length usedFullyQualifiedNames)
      then
        let usedFullyQualifiedNamesSorted :=
          sortByKey combinedLength usedFullyQualifiedNames in
        Returned (take maxUsedFullyQualifiedNamesLength usedFullyQualifiedNamesSorted, true)
      else Returned (usedFullyQualifiedNames, false)
  end.

Definition maxSimpleNamesLength : nat := 100.

(** The [.filter(...).map(...)] chain of [prepareSimpleNames]. *)
Definition filteredSimpleNames (simple : Simple.t) : list jsstring :=
  (λ elem, trim (Simple.symbol elem)) <$>
    filter (λ elem, length (trim (Simple.symbol elem)) < 129
                    ∧ 1 < length (trim (Simple.symbol elem)))
           (Simple.usedSymbols simple ++ Simple.declaredSymbols simple).

Definition prepareSimpleNames (names : NamesValue) : outcome (list jsstring * bool) :=
  match names with
  | NamesUndefined => Returned ([], false)
  | NamesNull | NamesObject None _ => Thrown TypeError
  | NamesObject (Some simple) _ =>
      let simpleNames := filteredSimpleNames simple in
      if bool_decide (maxSimpleNamesLength < length simpleNames) then
        let simpleNames := dedupFirst simpleNames in
        if bool_decide (maxSimpleNamesLength < length simpleNames) then
          let sorted := sortByKey length simpleNames in
          Returned (drop (length sorted - maxSimpleNamesLength) sorted, true)
        else Returned (simpleNames, true)
      else Returned (simpleNames, false)
  end.

(** ** FocusAreaExtractor *)

Record TextEditor : Type := mkTextEditor {
  document : option TextDocument;
  selection : Selection;
  visibleRanges : list Range
}.

Record FullyQualifiedNames : Type := mkFullyQualifiedNames {
  used : list FullyQualifiedName
}.

Record Names : Type := mkNames {
  simpleNames : list jsstring;
  fullyQualifiedNames : FullyQualifiedNames
}.

Record FocusAreaContext : Type := mkFocusAreaContext {
  extendedCodeBlock : jsstring;
  codeBlock : jsstring;
  selectionInsideExtendedCodeBlock : option Selection;
  names : Names
}.

Definition getSelectionInsideExtendedCodeBlock (originSelection : Selection)
    (extendedCodeBlockRange : Range) : outcome (option Selection) :=
  let origin := selectionRange originSelection in
  if bool_decide (line (start origin) = line (end_ origin))
     && bool_decide (character (start origin) = character (end_ origin))
  then Returned None
  else
    remapped ← newSelection
      (Z.of_nat (line (start origin)) - Z.of_nat (line (start extendedCodeBlockRange)))
      (Z.of_nat (character (start origin)))
      (Z.of_nat (line (end_ origin)) - Z.of_nat (line (start extendedCodeBlockRange)))
      (Z.of_nat (character (end_ origin)));
    mret (Some remapped).

(** The range [extract] starts from: the selection, or the first visible
    range when the selection is a bare cursor; undefined when it is a bare
    cursor and the editor has no visible range. *)
Definition rangeOfInterest (editor : TextEditor) : option Range :=
  let selected := selectionRange (selection editor) in
  if bool_decide (line (start selected) = line (end_ selected))
     && bool_decide (character (start selected) = character (end_ selected))
  then visibleRanges editor !! 0
  else Some selected.

Definition extract (finder : NameFinder) (editor : TextEditor)
  : outcome (option FocusAreaContext) :=
  match document editor with
  | None => Returned None
  | Some document =>
      let importantRange := rangeOfInterest editor in
      names ← findNamesInRange finder (getFullText document) importantRange
                               (languageId document);
      '(simpleNames, _) ← prepareSimpleNames names;
      '(usedFullyQualifiedNames, _) ← prepareFqns names;
      importantRange ← from_option Returned (Thrown TypeError) importantRange;
      importantRange ← trimRangeAccordingToLimits document importantRange;
      let codeBlock := getRangeText document importantRange in
      extendedCodeBlockRange ← getExtendedCodeBlockRange document importantRange;
      let simpleNames :=
        if bool_decide (length simpleNames = 0)
           && bool_decide (length usedFullyQualifiedNames = 0)
        then simpleNames ++ [codeBlock]
        else simpleNames in
      let extendedCodeBlock := getRangeText document extendedCodeBlockRange in
      selectionInside ← getSelectionInsideExtendedCodeBlock (selection editor)
                                                            extendedCodeBlockRange;
      mret (Some (mkFocusAreaContext extendedCodeBlock codeBlock selectionInside
                    (mkNames simpleNames (mkFullyQualifiedNames usedFullyQualifiedNames))))
  end.

(** ** Termination measures and sample inputs *)

(** The quantity every pass of the trimming loop lowers. *)
Definition trimMeasure (r : Range) : nat :=
  if decide (line (start r) ≤ line (end_ r))
  then 2 * line (end_ r) + (if decide (line (start r) = line (end_ r)) then 1 else 0)
  else 2 * line (start r) + 1.

(** The range from the first character of the document to its last. *)
Definition wholeDocument (d : TextDocument) : Range :=
  mkRange (mkPosition 0 0)
          (mkPosition (lineCount d - 1) (length (lineText d (lineCount d - 1)))).

Definition lineFeed : jsstring := [0xA%N].

(** A one-line file. *)
Definition shortDocument : TextDocument :=
  mkTextDocument [js "abc"] lineFeed (js "plaintext").

(** A two-line file and the whole of its second line. *)
Definition twoLines : TextDocument :=
  mkTextDocument [js "abc"; js "def"] lineFeed (js "plaintext").

Definition secondLine : Range := mkRange (mkPosition 1 0) (mkPosition 1 3).

(** A file whose second line alone is over the budget, and that line. *)
Definition longSecondLine : TextDocument :=
  mkTextDocument [js "ab"; replicate 201 0x78%N] lineFeed (js "plaintext").

Definition wholeSecondLine : Range := mkRange (mkPosition 1 0) (mkPosition 1 201).

(** Seven lines of sixty characters, and five characters of the middle line. *)
Definition sevenLines (languageId : jsstring) : TextDocument :=
  mkTextDocument (replicate 7 (replicate 60 0x78%N)) lineFeed languageId.

Definition middleWord : Range := mkRange (mkPosition 3 0) (mkPosition 3 5).

(** Thirty pairs of combined lengths 2 to 31, the longest first. *)
Definition thirtyPairs : list FullyQualifiedName :=
  (λ i, FullyQualified.mkName (js "m") (replicate (S i) 0x61%N)) <$> reverse (seq 0 30).

(** Three occurrences of two pairs. *)
Definition fewPairs : list FullyQualifiedName :=
  [FullyQualified.mkName (js "java.util") (js "List");
   FullyQualified.mkName (js "java.io") (js "File");
   FullyQualified.mkName (js "java.util") (js "List")].

(** 120 symbols, each with a leading blank, that differ in their last code
    unit and are three to seven code units long once trimmed. *)
Definition manySymbols : list Simple.name :=
  (λ i, Simple.mkName
          (js " " ++ replicate (2 + i `mod` 5) 0x61%N ++ [0x100 + N.of_nat i]%N))
    <$> seq 0 120.

Definition manySimpleNames : Simple.t :=
  Simple.mk (take 60 manySymbols) (drop 60 manySymbols).

(** The language identifiers [findNamesInRange] has a finder for. *)
Definition supportedLanguages : list jsstring :=
  [js "java"; js "javascript"; js "javascriptreact"; js "typescriptreact";
   js "python"; js "typescript"].

(** A finder that resolves to the same value whatever it is asked. *)
Definition constantFinder (names : NamesValue) : NameFinder :=
  mkNameFinder (λ _ _, Returned names) (λ _ _, Returned names)
               (λ _ _, Returned names) (λ _ _, Returned names).

(** An editor on [d] with the range [r] selected. *)
Definition editorOn (d : TextDocument) (r : Range) : TextEditor :=
  mkTextEditor (Some d) (mkSelection (start r) (end_ r)) [].

(** The same symbol once used and once declared. *)
Definition repeatedSymbol : NamesValue :=
  NamesObject (Some (Simple.mk [Simple.mkName (js "ab")] [Simple.mkName (js "ab")]))
              (Some (FullyQualified.mk [])).

(** A text with a private-use code unit and a surrogate pair that the
    regular expression of [findNamesInRange] matches. *)
Definition decoratedText : jsstring :=
  js "a" ++ [0xE000; 0xD83C; 0xDF00]%N ++ js "b".

(** From a position to the end of its line. *)
Definition restOfLine (d : TextDocument) (p : Position) : Range :=
  mkRange p (mkPosition (line p) (length (lineText d (line p)))).

(** Three lines of 150 characters and a range from inside the second line
    to the end of the last. *)
Definition threeLongLines : TextDocument :=
  mkTextDocument (replicate 3 (replicate 150 0x78%N)) lineFeed (js "java").

Definition acrossThreeLines : Range := mkRange (mkPosition 1 50) (mkPosition 2 150).

(** A selection made backwards, from line 12 up to line 10, and an extended
    block that starts on line 5. *)
Definition backwardSelection : Selection :=
  mkSelection (mkPosition 12 4) (mkPosition 10 7).

Definition blockFromLineFive : Range := mkRange (mkPosition 5 0) (mkPosition 20 0).

(** The same symbol 101 times. *)
Definition oneSymbolOften : Simple.t :=
  Simple.mk (replicate 101 (Simple.mkName (js "ab"))) [].

(** No simple name and two fully qualified names. *)
Definition onlyQualifiedNames : NamesValue :=
  NamesObject (Some (Simple.mk [] [])) (Some (FullyQualified.mk fewPairs)).

(** An object whose three lists are empty. *)
Definition noNames : NamesValue :=
  NamesObject (Some (Simple.mk [] [])) (Some (FullyQualified.mk [])).

(** * Properties *)

(** ** The editor model *)

Lemma bind_Returned {A B : Type} (a : A) (f : A → outcome B) :
  (Returned a ≫= f) = f a.
Proof. reflexivity. Qed.

Lemma newPosition_nonneg (l c : Z) :
  (0 ≤ l)%Z → (0 ≤ c)%Z →
  newPosition l c = Returned (mkPosition (Z.to_nat l) (Z.to_nat c)).
Proof.
  intros Hl Hc. unfold newPosition.
  rewrite !bool_decide_eq_false_2 by lia. reflexivity.
Qed.

Lemma newRange_nonneg (sl sc el ec : Z) :
  (0 ≤ sl)%Z → (0 ≤ sc)%Z → (0 ≤ el)%Z → (0 ≤ ec)%Z →
  newRange sl sc el ec
  = Returned (orderedRange (mkPosition (Z.to_nat sl) (Z.to_nat sc))
                           (mkPosition (Z.to_nat el) (Z.to_nat ec))).
Proof.
  intros. unfold newRange.
  rewrite !newPosition_nonneg by assumption. reflexivity.
Qed.

Lemma lineAt_Returned (d : TextDocument) (n : Z) (l : TextLine) :
  lineAt d n = Returned l →
  (0 ≤ n < Z.of_nat (lineCount d))%Z
  ∧ l = mkTextLine (Z.to_nat n) (lineText d (Z.to_nat n)).
Proof.
  unfold lineAt. intros H.
  destruct (bool_decide (n < 0)%Z) eqn:E1; [discriminate |].
  destruct (bool_decide (Z.of_nat (lineCount d) ≤ n)%Z) eqn:E2; [discriminate |].
  apply bool_decide_eq_false in E1, E2. simpl in H.
  split; [lia | congruence].
Qed.

Lemma lineAt_inside (d : TextDocument) (n : nat) :
  n < lineCount d →
  lineAt d (Z.of_nat n) = Returned (mkTextLine n (lineText d n)).
Proof.
  intros Hn. unfold lineAt.
  rewrite !bool_decide_eq_false_2 by lia. simpl. by rewrite Nat2Z.id.
Qed.

Lemma lineAt_outside (d : TextDocument) (n : Z) :
  (Z.of_nat (lineCount d) ≤ n)%Z → lineAt d n = Thrown (IllegalLine n).
Proof.
  intros Hn. unfold lineAt.
  rewrite (bool_decide_eq_true_2 (Z.of_nat (lineCount d) ≤ n)%Z) by lia.
  by rewrite orb_true_r.
Qed.

Lemma lineAt_not_OutOfFuel (d : TextDocument) (n : Z) : lineAt d n ≠ OutOfFuel.
Proof. unfold lineAt. by destruct (_ || _). Qed.

Lemma orderedRange_line_le (a b : Position) :
  line (start (orderedRange a b)) ≤ line (end_ (orderedRange a b)).
Proof.
  unfold orderedRange, isBefore.
  repeat case_bool_decide; simpl; lia.
Qed.

Lemma orderedRange_before (a b : Position) :
  line a < line b → orderedRange a b = mkRange a b.
Proof.
  intros H. unfold orderedRange, isBefore.
  by rewrite bool_decide_eq_true_2.
Qed.

Lemma rangeOrdered_line_le (r : Range) :
  rangeOrdered r → line (start r) ≤ line (end_ r).
Proof.
  unfold rangeOrdered, isBeforeOrEqual.
  repeat case_bool_decide; simpl; intros; try discriminate; lia.
Qed.

(** ** Trimming *)

Lemma trimBody_Returned (d : TextDocument) (r r' : Range) :
  line (end_ r) ≠ 0 →
  trimBody d r = Returned r' →
  line (end_ r) - 1 < lineCount d
  ∧ r' = orderedRange (start r)
           (mkPosition (line (end_ r) - 1)
                       (length (lineText d (line (end_ r) - 1)))).
Proof.
  intros He. unfold trimBody.
  destruct (lineAt d _) as [l | e | ] eqn:El; simpl; try discriminate.
  apply lineAt_Returned in El as [Hn ->]. simpl.
  rewrite newRange_nonneg by lia. intros [= <-].
  rewrite !Nat2Z.id.
  replace (Z.to_nat (Z.of_nat (line (end_ r)) - 1)) with (line (end_ r) - 1) by lia.
  split; [lia | by destruct (start r)].
Qed.

Lemma trimBody_not_OutOfFuel (d : TextDocument) (r : Range) :
  line (end_ r) ≠ 0 → trimBody d r ≠ OutOfFuel.
Proof.
  intros He. unfold trimBody.
  destruct (lineAt d _) as [l | e | ] eqn:El; simpl; try discriminate.
  - apply lineAt_Returned in El as [Hn ->]. simpl.
    by rewrite newRange_nonneg by lia.
  - by apply lineAt_not_OutOfFuel in El.
Qed.

Lemma trimBody_inside (d : TextDocument) (r : Range) :
  line (end_ r) ≠ 0 → line (end_ r) ≤ lineCount d →
  ∃ r', trimBody d r = Returned r'.
Proof.
  intros He Hin. unfold trimBody.
  replace (Z.of_nat (line (end_ r)) - 1)%Z with (Z.of_nat (line (end_ r) - 1)) by lia.
  rewrite lineAt_inside by lia. simpl.
  rewrite newRange_nonneg by lia. eauto.
Qed.

Lemma trimMeasure_decreases (r : Range) (p : Position) :
  line (end_ r) ≠ 0 → line p = line (end_ r) - 1 →
  trimMeasure (orderedRange (start r) p) < trimMeasure r.
Proof.
  destruct r as [[sl sc] [el ec]], p as [pl pc]. simpl. intros He ->.
  unfold trimMeasure, orderedRange, isBefore. simpl.
  destruct (bool_decide (sl < el - 1)) eqn:E1; simpl;
    [| destruct (bool_decide (sl = el - 1)) eqn:E2; simpl;
       [destruct (bool_decide (sc < pc)) eqn:E3; simpl |]];
    repeat match goal with
           | H : bool_decide _ = true |- _ => apply bool_decide_eq_true in H
           | H : bool_decide _ = false |- _ => apply bool_decide_eq_false in H
           end;
    repeat case_decide; lia.
Qed.

Lemma trimLoop_fuel (fuel : nat) (d : TextDocument) (r : Range) :
  trimMeasure r < fuel → trimLoop fuel d r ≠ OutOfFuel.
Proof.
  revert r. induction fuel as [| fuel IH]; intros r Hm; [lia |].
  simpl. destruct (trimGuard d r); [| done].
  case_bool_decide as He; [done |].
  destruct (trimBody d r) as [r' | e | ] eqn:Eb; simpl; [| done |].
  - apply trimBody_Returned in Eb as [_ ->]; [| done].
    apply IH.
    pose proof (trimMeasure_decreases r
      (mkPosition (line (end_ r) - 1) (length (lineText d (line (end_ r) - 1))))
      He eq_refl). lia.
  - by apply trimBody_not_OutOfFuel in Eb.
Qed.

Lemma trimFuel_enough (r : Range) : trimMeasure r < trimFuel r.
Proof. unfold trimMeasure, trimFuel. repeat case_decide; lia. Qed.

Lemma trimRange_not_OutOfFuel (d : TextDocument) (r : Range) :
  trimRangeAccordingToLimits d r ≠ OutOfFuel.
Proof. apply trimLoop_fuel, trimFuel_enough. Qed.

(** Where the loop stops: its condition failed or it took the [break]. *)
Lemma trimLoop_stops (fuel : nat) (d : TextDocument) (r r' : Range) :
  trimLoop fuel d r = Returned r' →
  trimGuard d r' = false ∨ line (end_ r') = 0.
Proof.
  revert r. induction fuel as [| fuel IH]; intros r; [done |].
  simpl. destruct (trimGuard d r) eqn:Eg.
  - case_bool_decide as He.
    + intros [= <-]. by right.
    + destruct (trimBody d r) as [r1 | e | ]; simpl; try done. apply IH.
  - intros [= <-]. by left.
Qed.

(** Lines of the range stay inside the document while trimming. *)
Lemma trimLoop_inside (fuel : nat) (d : TextDocument) (r : Range) :
  trimMeasure r < fuel →
  line (start r) ≤ lineCount d → line (end_ r) ≤ lineCount d →
  ∃ r', trimLoop fuel d r = Returned r'.
Proof.
  revert r. induction fuel as [| fuel IH]; intros r Hm Hs He; [lia |].
  simpl. destruct (trimGuard d r); [| eauto].
  case_bool_decide as Hz; [eauto |].
  destruct (trimBody_inside d r Hz He) as [r1 Hr1]. rewrite Hr1. simpl.
  apply trimBody_Returned in Hr1 as [_ ->]; [| done].
  apply IH.
  - pose proof (trimMeasure_decreases r
      (mkPosition (line (end_ r) - 1) (length (lineText d (line (end_ r) - 1))))
      Hz eq_refl). lia.
  - unfold orderedRange. destruct (isBefore _ _); simpl; lia.
  - unfold orderedRange. destruct (isBefore _ _); simpl; lia.
Qed.

(** Unless the range is already within the budget, is empty, or ends on the
    first line, trimming makes at least one pass. *)
Lemma trimRange_unfold (d : TextDocument) (r : Range) :
  trimRangeAccordingToLimits d r
  = if trimGuard d r then
      if bool_decide (line (end_ r) = 0) then Returned r
      else shorter ← trimBody d r;
           trimLoop (trimFuel r - 1) d shorter
    else Returned r.
Proof.
  unfold trimRangeAccordingToLimits, trimFuel.
  replace (2 * (line (start r) `max` line (end_ r)) + 3)
    with (S (2 * (line (start r) `max` line (end_ r)) + 3 - 1)) at 1 by lia.
  reflexivity.
Qed.

Lemma trimRange_fixed (d : TextDocument) (r : Range) :
  trimGuard d r = false ∨ line (end_ r) = 0 →
  trimRangeAccordingToLimits d r = Returned r.
Proof.
  intros H. rewrite trimRange_unfold.
  destruct (trimGuard d r); [| done].
  destruct H as [H | H]; [done |]. by rewrite bool_decide_eq_true_2.
Qed.

Lemma getRangeText_empty (d : TextDocument) (p : Position) :
  getRangeText d (mkRange p p) = [].
Proof.
  unfold getRangeText, getTextInRange, validateRange. simpl.
  destruct (bool_decide (validatePosition d p = p)); simpl.
  - unfold isEmpty. simpl. by rewrite bool_decide_eq_true_2.
  - unfold orderedRange, isBefore.
    replace (bool_decide (line (validatePosition d p) < line (validatePosition d p)))
      with false by (symmetry; apply bool_decide_eq_false_2; lia).
    replace (bool_decide (character (validatePosition d p)
                          < character (validatePosition d p)))
      with false by (symmetry; apply bool_decide_eq_false_2; lia).
    rewrite andb_false_r. simpl.
    unfold isEmpty. simpl. by rewrite bool_decide_eq_true_2.
Qed.

(** An oversized range that lies on one line, not the first: the first pass
    puts the end before the start, the two positions are stored swapped, and
    the range returned starts at the end of the line above. *)
Lemma trim_single_line_moves_start (d : TextDocument) (r : Range) :
  line (start r) = line (end_ r) →
  line (end_ r) ≠ 0 → line (end_ r) ≤ lineCount d →
  trimGuard d r = true →
  ∃ r', trimRangeAccordingToLimits d r = Returned r'
        ∧ start r' = mkPosition (line (end_ r) - 1)
                                (length (lineText d (line (end_ r) - 1))).
Proof.
  intros Hline Hz Hin Hg.
  set (p := mkPosition (line (end_ r) - 1) (length (lineText d (line (end_ r) - 1)))).
  rewrite trimRange_unfold, Hg, bool_decide_eq_false_2 by done.
  destruct (trimBody_inside d r Hz Hin) as [r1 Hr1]. rewrite Hr1, bind_Returned.
  apply trimBody_Returned in Hr1 as [_ ->]; [| done]. fold p.
  assert (Hswap : orderedRange (start r) p = mkRange p (start r)).
  { unfold orderedRange, isBefore. subst p. simpl.
    rewrite (bool_decide_eq_false_2 (line (start r) < line (end_ r) - 1)) by lia.
    by rewrite (bool_decide_eq_false_2 (line (start r) = line (end_ r) - 1)) by lia. }
  rewrite Hswap. clear Hswap.
  assert (Hfuel : 2 ≤ trimFuel r - 1) by (unfold trimFuel; lia).
  destruct (trimFuel r - 1) as [| [| fuel]]; [lia | lia |].
  cbn [trimLoop].
  destruct (trimGuard d (mkRange p (start r))); [| by eexists].
  simpl. rewrite bool_decide_eq_false_2 by lia.
  assert (Hbody : trimBody d (mkRange p (start r)) = Returned (mkRange p p)).
  { unfold trimBody. simpl.
    replace (Z.of_nat (line (start r)) - 1)%Z
      with (Z.of_nat (line (end_ r) - 1)) by lia.
    rewrite lineAt_inside by lia. simpl.
    rewrite newRange_nonneg by lia. rewrite !Nat2Z.id.
    unfold orderedRange, isBefore. simpl.
    rewrite (bool_decide_eq_false_2 (line (end_ r) - 1 < line (end_ r) - 1)) by lia.
    rewrite (bool_decide_eq_false_2 (length (lineText d (line (end_ r) - 1))
                                     < length (lineText d (line (end_ r) - 1)))) by lia.
    by rewrite andb_false_r. }
  rewrite Hbody, bind_Returned.
  unfold trimGuard. rewrite getRangeText_empty. simpl.
  by eexists.
Qed.

(** ** Expanding *)

Lemma expandBody_up (d : TextDocument) (r : Range) (s' : Range * bool) :
  line (start r) ≠ 0 → line (start r) ≤ line (end_ r) →
  expandBody d r true = Returned s' →
  line (start r) - 1 < lineCount d
  ∧ s' = (mkRange (mkPosition (line (start r) - 1)
                              (length (lineText d (line (start r) - 1))))
                  (end_ r), false).
Proof.
  intros Hs Hle. unfold expandBody.
  rewrite bool_decide_eq_true_2 by done. simpl.
  destruct (lineAt d _) as [l | e | ] eqn:El; simpl; try discriminate.
  apply lineAt_Returned in El as [Hn ->]. simpl.
  rewrite newRange_nonneg by lia. simpl.
  rewrite !Nat2Z.id.
  replace (Z.to_nat (Z.of_nat (line (start r)) - 1)) with (line (start r) - 1) by lia.
  rewrite orderedRange_before by (simpl; lia).
  intros [= <-]. split; [lia |]. by destruct (end_ r).
Qed.

Lemma expandBody_down (d : TextDocument) (r : Range) (b : bool) (s' : Range * bool) :
  b && bool_decide (line (start r) ≠ 0) = false →
  line (start r) ≤ line (end_ r) →
  expandBody d r b = Returned s' →
  line (end_ r) + 1 < lineCount d
  ∧ s' = (mkRange (start r)
                  (mkPosition (line (end_ r) + 1)
                              (length (lineText d (line (end_ r) + 1)))), true).
Proof.
  intros Hb Hle. unfold expandBody. rewrite Hb.
  destruct (lineAt d _) as [l | e | ] eqn:El; simpl; try discriminate.
  apply lineAt_Returned in El as [Hn ->]. simpl.
  rewrite newRange_nonneg by lia. simpl.
  rewrite !Nat2Z.id.
  replace (Z.to_nat (Z.of_nat (line (end_ r)) + 1)) with (line (end_ r) + 1) by lia.
  rewrite orderedRange_before by (simpl; lia).
  intros [= <-]. split; [lia |]. by destruct (start r).
Qed.

Lemma expandBody_not_OutOfFuel (d : TextDocument) (r : Range) (b : bool) :
  expandBody d r b ≠ OutOfFuel.
Proof.
  unfold expandBody, newRange, newPosition.
  destruct (b && _);
    (destruct (lineAt d _) as [l | e | ] eqn:El; simpl;
     [ repeat (case_bool_decide; simpl); done
     | done
     | by apply lineAt_not_OutOfFuel in El ]).
Qed.

(** A pass keeps the range in document order and lowers
    [start.line + (lineCount - end.line)]. *)
Lemma expandBody_progress (d : TextDocument) (r r' : Range) (b b' : bool) :
  line (start r) ≤ line (end_ r) →
  expandBody d r b = Returned (r', b') →
  line (start r') ≤ line (end_ r')
  ∧ line (start r') + (lineCount d - line (end_ r')) <
    line (start r) + (lineCount d - line (end_ r)).
Proof.
  intros Hle Hb.
  destruct (b && bool_decide (line (start r) ≠ 0)) eqn:E.
  - apply andb_true_iff in E as [-> Hs%bool_decide_eq_true].
    apply expandBody_up in Hb as [Hin [= -> ->]]; [| done | done].
    simpl. lia.
  - apply expandBody_down in Hb as [Hin [= -> ->]]; [| done | done].
    simpl. lia.
Qed.

Lemma expandLoop_fuel (fuel : nat) (d : TextDocument) (r : Range) (b : bool) :
  line (start r) ≤ line (end_ r) →
  line (start r) + (lineCount d - line (end_ r)) < fuel →
  expandLoop fuel d r b ≠ OutOfFuel.
Proof.
  revert r b. induction fuel as [| fuel IH]; intros r b Hle Hm; [lia |].
  simpl. destruct (expandGuard d r); [| done].
  destruct (expandBody d r b) as [[r' b'] | e | ] eqn:Eb; simpl; [| done |].
  - apply expandBody_progress in Eb as [Hle' Hm']; [| done].
    apply IH; [done | lia].
  - by apply expandBody_not_OutOfFuel in Eb.
Qed.

Lemma expand_not_OutOfFuel (d : TextDocument) (r : Range) :
  rangeOrdered r → getExtendedCodeBlockRange d r ≠ OutOfFuel.
Proof.
  intros Hr%rangeOrdered_line_le.
  apply expandLoop_fuel; [done |]. unfold expandFuel. lia.
Qed.

(** A run of the step relation that ends where the loop condition fails is
    what the loop computes, given fuel for its passes. *)
Lemma expandLoop_nsteps (d : TextDocument) (n fuel : nat) (s s' : Range * bool) :
  nsteps (expandStep d) n s s' →
  expandGuard d s'.1 = false →
  n < fuel →
  expandLoop fuel d s.1 s.2 = Returned s'.1.
Proof.
  intros Hrun Hstop. revert fuel.
  induction Hrun as [s | n s s1 s' [Hg Hb] Hrun IH]; intros fuel Hfuel.
  - destruct fuel as [| fuel]; [lia |]. simpl. by rewrite Hstop.
  - destruct fuel as [| fuel]; [lia |]. simpl. rewrite Hg, Hb. simpl.
    destruct s1 as [r1 b1]. apply IH; [done | lia].
Qed.

(** The upward pass in general: the new start is the end of the previous
    line, whatever that line holds. *)
Lemma expandBody_up_inside (d : TextDocument) (r : Range) :
  line (start r) ≠ 0 → line (start r) ≤ line (end_ r) →
  line (start r) - 1 < lineCount d →
  expandBody d r true
  = Returned (mkRange (mkPosition (line (start r) - 1)
                                  (length (lineText d (line (start r) - 1))))
                      (end_ r), false).
Proof.
  intros Hs Hle Hin. unfold expandBody.
  rewrite bool_decide_eq_true_2 by done. simpl.
  replace (Z.of_nat (line (start r)) - 1)%Z with (Z.of_nat (line (start r) - 1)) by lia.
  rewrite lineAt_inside by done. simpl.
  rewrite newRange_nonneg by lia. simpl.
  rewrite !Nat2Z.id, orderedRange_before by (simpl; lia).
  by destruct (end_ r).
Qed.

(** C1 (the code departs from the claim).  On the two-line file "abc" / "def"
    with the range covering "def", the upward pass of the expansion loop
    leaves the end where it was but puts the new start at character 3 of the
    previous line, its end, and not at character 0: the rendered text gains
    the line break only and none of the text "abc" of the previous line. *)
Theorem expand_up_step_starts_at_line_end :
  expandBody twoLines secondLine true
  = Returned (mkRange (mkPosition 0 3) (end_ secondLine), false)
  ∧ getRangeText twoLines (mkRange (mkPosition 0 3) (end_ secondLine))
    = lineFeed ++ js "def"
  ∧ getRangeText twoLines (mkRange (mkPosition 0 0) (end_ secondLine))
    = js "abc" ++ lineFeed ++ js "def".
Proof. by vm_compute. Qed.

(** C2 (the code departs from the claim).  When the range already spans the
    whole of a non-empty document and that text is below the budget, the loop
    does not stop: its condition compares the end line with [lineCount],
    which no line index reaches, so it goes on to ask for the line after the
    last one, index [lineCount], and [lineAt] throws. *)
Theorem expand_whole_document_requests_line_past_end (d : TextDocument) :
  lineCount d ≠ 0 →
  length (getRangeText d (wholeDocument d)) < focusAreaCharLimit →
  getExtendedCodeBlockRange d (wholeDocument d)
  = Thrown (IllegalLine (Z.of_nat (lineCount d))).
Proof.
  intros Hn Hlen.
  unfold getExtendedCodeBlockRange, expandFuel.
  replace (line (start (wholeDocument d)) + lineCount d + 1) with (S (lineCount d))
    by (simpl; lia).
  cbn [expandLoop]. unfold expandGuard.
  rewrite (bool_decide_eq_true_2 _ Hlen).
  rewrite (bool_decide_eq_true_2 (line (end_ (wholeDocument d)) ≠ lineCount d))
    by (simpl; lia).
  rewrite orb_true_r. cbn [andb].
  unfold expandBody.
  rewrite (bool_decide_eq_false_2 (line (start (wholeDocument d)) ≠ 0))
    by (simpl; lia).
  cbn [andb].
  replace (Z.of_nat (line (end_ (wholeDocument d))) + 1)%Z
    with (Z.of_nat (lineCount d)) by (simpl; lia).
  rewrite lineAt_outside by lia. reflexivity.
Qed.

Lemma expand_whole_document_requests_line_past_end_witness :
  getExtendedCodeBlockRange shortDocument (mkRange (mkPosition 0 0) (mkPosition 0 3))
  = Thrown (IllegalLine 1).
Proof.
  apply (expand_whole_document_requests_line_past_end shortDocument).
  - vm_compute. lia.
  - vm_compute. lia.
Defined.

(** C3 (the code departs from the claim).  The second line of the file is
    201 characters long and is the whole range, which is in document order.
    Trimming moves the end to the end of the first line, which lies before
    the start, so the new range is stored with its positions swapped: the
    result starts at line 0, character 2, and not at line 1, character 0. *)
Theorem trim_moves_start_of_long_single_line :
  rangeOrdered wholeSecondLine
  ∧ trimRangeAccordingToLimits longSecondLine wholeSecondLine
    = Returned (mkRange (mkPosition 0 2) (mkPosition 1 0))
  ∧ mkPosition 0 2 ≠ start wholeSecondLine.
Proof. by vm_compute. Qed.

(** C8.  Take a range in document order that starts on line 2 or below.  If
    the expansion loop makes exactly four passes from it (the loop condition
    holds four times, no pass throws, and the condition fails after the
    fourth), then the expansion returns the range reached, whose start is two
    lines higher and whose end is two lines lower than before. *)
Theorem expand_four_steps_alternate (d : TextDocument) (r r' : Range) (b' : bool) :
  rangeOrdered r →
  2 ≤ line (start r) →
  nsteps (expandStep d) 4 (r, true) (r', b') →
  expandGuard d r' = false →
  getExtendedCodeBlockRange d r = Returned r'
  ∧ line (start r') + 2 = line (start r)
  ∧ line (end_ r') = line (end_ r) + 2.
Proof.
  intros Hord%rangeOrdered_line_le Hs Hrun Hstop.
  assert (Hlines : line (start r') + 2 = line (start r)
                   ∧ line (end_ r') = line (end_ r) + 2
                   ∧ line (end_ r) + 2 < lineCount d).
  { inversion Hrun as [| ? ? s1 ? [_ H1] Hrun1]; subst. simpl in H1.
    apply expandBody_up in H1 as [_ ->]; [| lia | done].
    inversion Hrun1 as [| ? ? s2 ? [_ H2] Hrun2]; subst. simpl in H2.
    apply expandBody_down in H2 as [_ ->]; [| done | simpl; lia].
    inversion Hrun2 as [| ? ? s3 ? [_ H3] Hrun3]; subst. simpl in H3.
    apply expandBody_up in H3 as [_ ->]; [| simpl; lia | simpl; lia].
    inversion Hrun3 as [| ? ? s4 ? [_ H4] Hrun4]; subst. simpl in H4.
    apply expandBody_down in H4 as [Hin ->]; [| done | simpl; lia].
    inversion Hrun4; subst. simpl in *. lia. }
  split; [| tauto].
  apply (expandLoop_nsteps d 4 _ (r, true) (r', b') Hrun Hstop).
  unfold expandFuel. lia.
Qed.

Lemma expand_four_steps_alternate_witness :
  getExtendedCodeBlockRange (sevenLines (js "java")) middleWord
  = Returned (mkRange (mkPosition 1 60) (mkPosition 5 60)).
Proof.
  refine (proj1 (expand_four_steps_alternate (sevenLines (js "java")) middleWord
                   (mkRange (mkPosition 1 60) (mkPosition 5 60)) true _ _ _ _)).
  - vm_compute. reflexivity.
  - vm_compute. lia.
  - apply (nsteps_l _ _ _ (mkRange (mkPosition 2 60) (mkPosition 3 5), false));
      [split; vm_compute; reflexivity |].
    apply (nsteps_l _ _ _ (mkRange (mkPosition 2 60) (mkPosition 4 60), true));
      [split; vm_compute; reflexivity |].
    apply (nsteps_l _ _ _ (mkRange (mkPosition 1 60) (mkPosition 4 60), false));
      [split; vm_compute; reflexivity |].
    apply (nsteps_l _ _ _ (mkRange (mkPosition 1 60) (mkPosition 5 60), true));
      [split; vm_compute; reflexivity |].
    apply nsteps_O.
  - vm_compute. reflexivity.
Defined.

(** C9.  A range whose text is within the budget is returned by the trimming
    as it is; trimming the result of a trimming returns that result again
    (with a trimming that throws counted as its own result); and the
    trimming always finishes: it never runs out of its fuel, and it returns
    a range whenever the lines of the given range are not beyond the
    document. *)
Theorem trim_idempotent (d : TextDocument) (r : Range) :
  (length (getRangeText d r) ≤ focusAreaCharLimit →
   trimRangeAccordingToLimits d r = Returned r)
  ∧ (trimRangeAccordingToLimits d r ≫= trimRangeAccordingToLimits d)
    = trimRangeAccordingToLimits d r
  ∧ trimRangeAccordingToLimits d r ≠ OutOfFuel
  ∧ (line (start r) ≤ lineCount d → line (end_ r) ≤ lineCount d →
     ∃ r', trimRangeAccordingToLimits d r = Returned r').
Proof.
  repeat split.
  - intros Hlen. apply trimRange_fixed. left. unfold trimGuard.
    rewrite bool_decide_eq_false_2 by lia. reflexivity.
  - destruct (trimRangeAccordingToLimits d r) as [r' | e | ] eqn:Et; simpl; try done.
    apply trimLoop_stops in Et. by apply trimRange_fixed.
  - apply trimRange_not_OutOfFuel.
  - intros Hs He. apply trimLoop_inside; [apply trimFuel_enough | done | done].
Qed.

Lemma trim_idempotent_witness :
  trimRangeAccordingToLimits (sevenLines (js "java")) middleWord = Returned middleWord
  ∧ ∃ r', trimRangeAccordingToLimits (sevenLines (js "java"))
            (wholeDocument (sevenLines (js "java"))) = Returned r'.
Proof.
  split.
  - apply (proj1 (trim_idempotent (sevenLines (js "java")) middleWord)).
    vm_compute. lia.
  - apply (proj2 (proj2 (proj2 (trim_idempotent (sevenLines (js "java"))
                                  (wholeDocument (sevenLines (js "java"))))))).
    + vm_compute. lia.
    + vm_compute. lia.
Defined.

(** ** Sets, maps and sorting *)

Section js_collections_facts.
Context {A : Type} `{EqDecision A}.
Implicit Types (l seen : list A) (x y : A) (key : A → nat).

Lemma elem_of_dedupFrom seen l x :
  x ∈ dedupFrom seen l ↔ x ∈ l ∧ x ∉ seen.
Proof.
  revert seen. induction l as [| y l IH]; intros seen; simpl.
  - rewrite elem_of_nil. tauto.
  - case_decide as Hy.
    + rewrite IH, elem_of_cons. split; [tauto |].
      intros [[-> | Hx] Hs]; [done | tauto].
    + rewrite !elem_of_cons, IH, not_elem_of_cons.
      destruct (decide (x = y)) as [-> | Hne]; tauto.
Qed.

Lemma elem_of_dedupFirst l x : x ∈ dedupFirst l ↔ x ∈ l.
Proof.
  unfold dedupFirst. rewrite elem_of_dedupFrom, elem_of_nil. tauto.
Qed.

Lemma NoDup_dedupFrom seen l : NoDup (dedupFrom seen l).
Proof.
  revert seen. induction l as [| y l IH]; intros seen; simpl.
  - constructor.
  - case_decide; [apply IH |].
    constructor; [| apply IH].
    rewrite elem_of_dedupFrom, not_elem_of_cons. tauto.
Qed.

Lemma NoDup_dedupFirst l : NoDup (dedupFirst l).
Proof. apply NoDup_dedupFrom. Qed.

Lemma dedupFrom_sublist seen l : dedupFrom seen l `sublist_of` l.
Proof.
  revert seen. induction l as [| y l IH]; intros seen; simpl.
  - constructor.
  - case_decide; [apply sublist_cons, IH | apply sublist_skip, IH].
Qed.

Lemma length_dedupFirst l : length (dedupFirst l) ≤ length l.
Proof. apply sublist_length, dedupFrom_sublist. Qed.

Lemma dedupFrom_ext seen1 seen2 l :
  (∀ x, x ∈ seen1 ↔ x ∈ seen2) → dedupFrom seen1 l = dedupFrom seen2 l.
Proof.
  revert seen1 seen2. induction l as [| y l IH]; intros seen1 seen2 Hs; simpl.
  - reflexivity.
  - destruct (decide (y ∈ seen1)) as [H1 | H1], (decide (y ∈ seen2)) as [H2 | H2];
      try (exfalso; apply Hs in H1 || apply Hs in H2; tauto).
    + by apply IH.
    + f_equal. apply IH. intros x. rewrite !elem_of_cons, Hs. tauto.
Qed.

Lemma filter_all (P : A → Prop) `{∀ x, Decision (P x)} l :
  (∀ x, x ∈ l → P x) → filter P l = l.
Proof.
  induction l as [| y l IH]; intros Hall; [done |].
  rewrite filter_cons_True by (apply Hall; left).
  f_equal. apply IH. intros x Hx. apply Hall. by right.
Qed.

Lemma dedupFrom_cons_seen x seen l :
  dedupFrom (x :: seen) l = filter (λ y, y ≠ x) (dedupFrom seen l).
Proof.
  revert seen. induction l as [| y l IH]; intros seen; simpl; [done |].
  destruct (decide (y ∈ seen)) as [Hs | Hs].
  - rewrite decide_True by (apply elem_of_cons; tauto). apply IH.
  - destruct (decide (y = x)) as [-> | Hne].
    + rewrite decide_True by (apply elem_of_cons; tauto).
      rewrite filter_cons_False by (intros ?; done).
      symmetry. apply filter_all. intros z.
      rewrite elem_of_dedupFrom, not_elem_of_cons. tauto.
    + rewrite decide_False by (rewrite elem_of_cons; tauto).
      rewrite filter_cons_True by done. f_equal.
      rewrite <- IH. apply dedupFrom_ext.
      intros z. rewrite !elem_of_cons. tauto.
Qed.

(** First-seen order: the first element stays in front and its later
    copies are the ones dropped. *)
Lemma dedupFirst_cons x l :
  dedupFirst (x :: l) = x :: filter (λ y, y ≠ x) (dedupFirst l).
Proof.
  unfold dedupFirst. cbn [dedupFrom].
  case_decide as Hx; [by apply elem_of_nil in Hx |].
  f_equal. apply dedupFrom_cons_seen.
Qed.

Lemma dedupFirst_NoDup l : NoDup l → dedupFirst l = l.
Proof.
  induction 1 as [| x l Hx Hl IH]; [done |].
  rewrite dedupFirst_cons, IH. f_equal.
  apply filter_all. intros y Hy ->. done.
Qed.

Lemma dedupFirst_nonempty l : l ≠ [] → dedupFirst l ≠ [].
Proof. destruct l; [done |]. by rewrite dedupFirst_cons. Qed.

(** No list of distinct elements of [l] is longer than [dedupFirst l]. *)
Lemma length_dedupFirst_max l (u : list A) :
  NoDup u → (∀ x, x ∈ u → x ∈ l) → length u ≤ length (dedupFirst l).
Proof.
  intros Hu Hsub. apply submseteq_length, NoDup_submseteq; [done |].
  intros x Hx. apply elem_of_dedupFirst, Hsub, Hx.
Qed.

Lemma insertByKey_Permutation key x l : insertByKey key x l ≡ₚ x :: l.
Proof.
  induction l as [| y l IH]; simpl; [done |].
  case_decide; [done |]. rewrite IH. apply Permutation_swap.
Qed.

Lemma sortByKey_Permutation key l : sortByKey key l ≡ₚ l.
Proof.
  induction l as [| x l IH]; simpl; [done |].
  by rewrite insertByKey_Permutation, IH.
Qed.

Lemma insertByKey_sorted key x l :
  StronglySorted (λ a b, key a ≤ key b) l →
  StronglySorted (λ a b, key a ≤ key b) (insertByKey key x l).
Proof.
  induction 1 as [| y l Hl IH Hy]; simpl.
  - repeat constructor.
  - case_decide as Hxy.
    + constructor; [by constructor |].
      constructor; [done |].
      eapply Forall_impl; [exact Hy |]. simpl. intros z Hz. lia.
    + constructor; [done |].
      rewrite insertByKey_Permutation. constructor; [lia | done].
Qed.

Lemma sortByKey_sorted key l :
  StronglySorted (λ a b, key a ≤ key b) (sortByKey key l).
Proof.
  induction l as [| x l IH]; simpl; [constructor |].
  by apply insertByKey_sorted.
Qed.

(** Stability: elements with the same key keep their order. *)
Lemma insertByKey_stable key (k : nat) x l :
  filter (λ y, key y = k) (insertByKey key x l)
  = filter (λ y, key y = k) (x :: l).
Proof.
  induction l as [| y l IH]; simpl; [done |].
  case_decide as Hxy; [done |].
  destruct (decide (key x = k)) as [Hx | Hx], (decide (key y = k)) as [Hy | Hy].
  - lia.
  - rewrite (filter_cons_False _ y) by done. rewrite IH.
    rewrite (filter_cons_True _ x) by done.
    rewrite (filter_cons_True _ x) by done.
    by rewrite (filter_cons_False _ y) by done.
  - rewrite (filter_cons_True _ y) by done. rewrite IH.
    rewrite !(filter_cons_False _ x) by done.
    by rewrite (filter_cons_True _ y) by done.
  - rewrite (filter_cons_False _ y) by done. rewrite IH.
    rewrite !(filter_cons_False _ x) by done.
    by rewrite (filter_cons_False _ y) by done.
Qed.

Lemma sortByKey_stable key (k : nat) l :
  filter (λ y, key y = k) (sortByKey key l) = filter (λ y, key y = k) l.
Proof.
  induction l as [| x l IH]; simpl; [done |].
  rewrite insertByKey_stable.
  destruct (decide (key x = k)).
  - rewrite !(filter_cons_True _ x) by done. by rewrite IH.
  - rewrite !(filter_cons_False _ x) by done. by rewrite IH.
Qed.

Lemma sortByKey_take_drop key l (n : nat) x y :
  x ∈ take n (sortByKey key l) → y ∈ drop n (sortByKey key l) → key x ≤ key y.
Proof.
  intros Hx Hy.
  pose proof (sortByKey_sorted key l) as Hs.
  rewrite <- (take_drop n (sortByKey key l)) in Hs.
  apply (StronglySorted_app_1_elem_of _ _ _ x y Hs Hx Hy).
Qed.

Lemma sortByKey_split key l (n : nat) y :
  y ∈ l → y ∈ take n (sortByKey key l) ∨ y ∈ drop n (sortByKey key l).
Proof.
  intros Hy. apply elem_of_app. rewrite take_drop.
  by rewrite sortByKey_Permutation.
Qed.

Lemma NoDup_sortByKey key l : NoDup l → NoDup (sortByKey key l).
Proof. intros Hl. by rewrite sortByKey_Permutation. Qed.

Lemma length_sortByKey key l : length (sortByKey key l) = length l.
Proof. by rewrite sortByKey_Permutation. Qed.
End js_collections_facts.

(** ** Curating the names *)

Lemma elem_of_filteredSimpleNames (simple : Simple.t) (s : jsstring) :
  s ∈ filteredSimpleNames simple
  ↔ ∃ elem, elem ∈ Simple.usedSymbols simple ++ Simple.declaredSymbols simple
            ∧ s = trim (Simple.symbol elem) ∧ 1 < length s < 129.
Proof.
  unfold filteredSimpleNames. rewrite list_elem_of_fmap.
  split.
  - intros (elem & -> & [Hlen Hin]%list_elem_of_filter). exists elem. tauto.
  - intros (elem & Hin & -> & Hlen). exists elem. split; [done |].
    apply list_elem_of_filter. tauto.
Qed.

(** C5.  [prepareFqns] works on the occurrences with later copies of a pair
    removed: that list has no duplicates, holds the same pairs, and keeps
    each pair at the place of its first occurrence.  With at most 25 such
    pairs it returns them as they are, with the flag false.  With more it
    returns, with the flag true, 25 distinct pairs among them, none of which
    has a greater combined length than any pair it leaves out. *)
Theorem prepareFqns_dedup_and_cap (simple : option Simple.t)
    (occurrences : list FullyQualifiedName) :
  let unique := dedupFirst occurrences in
  let result := prepareFqns (NamesObject simple (Some (FullyQualified.mk occurrences))) in
  (NoDup unique ∧ (∀ name, name ∈ unique ↔ name ∈ occurrences)
   ∧ (∀ name rest, occurrences = name :: rest →
        unique = name :: filter (λ other, other ≠ name) (dedupFirst rest)))
  ∧ (length unique ≤ 25 → result = Returned (unique, false))
  ∧ (25 < length unique →
     ∃ kept, result = Returned (kept, true)
             ∧ length kept = 25 ∧ NoDup kept
             ∧ (∀ name, name ∈ kept → name ∈ unique)
             ∧ (∀ name other, name ∈ kept → other ∈ unique → other ∉ kept →
                  combinedLength name ≤ combinedLength other)).
Proof.
  intros unique result. subst unique result.
  split; [| split].
  - split; [apply NoDup_dedupFirst |].
    split; [intros name; apply elem_of_dedupFirst |].
    intros name rest ->. apply dedupFirst_cons.
  - intros Hle. unfold prepareFqns, maxUsedFullyQualifiedNamesLength. simpl.
    by rewrite bool_decide_eq_false_2 by lia.
  - intros Hgt. unfold prepareFqns, maxUsedFullyQualifiedNamesLength. simpl.
    rewrite bool_decide_eq_true_2 by lia.
    eexists. split; [reflexivity |].
    split; [| split; [| split]].
    + rewrite length_take, length_sortByKey. lia.
    + eapply sublist_NoDup; [| apply sublist_take].
      apply NoDup_sortByKey, NoDup_dedupFirst.
    + intros name Hin.
      rewrite <- (sortByKey_Permutation combinedLength).
      eapply elem_of_sublist; [exact Hin | apply sublist_take].
    + intros name other Hname Hother Hout.
      destruct (sortByKey_split combinedLength _ 25 other Hother) as [Hin | Hin];
        [done |].
      exact (sortByKey_take_drop combinedLength _ 25 name other Hname Hin).
Qed.

Lemma prepareFqns_dedup_and_cap_witness :
  prepareFqns (NamesObject None (Some (FullyQualified.mk fewPairs)))
  = Returned ([FullyQualified.mkName (js "java.util") (js "List");
               FullyQualified.mkName (js "java.io") (js "File")], false)
  ∧ ∃ kept, prepareFqns (NamesObject None (Some (FullyQualified.mk thirtyPairs)))
            = Returned (kept, true) ∧ length kept = 25.
Proof.
  split.
  - apply (proj1 (proj2 (prepareFqns_dedup_and_cap None fewPairs))).
    vm_compute. lia.
  - assert (Hmany : 25 < length (dedupFirst thirtyPairs)) by (vm_compute; lia).
    destruct (proj2 (proj2 (prepareFqns_dedup_and_cap None thirtyPairs)) Hmany)
      as (kept & Hres & Hlen & _).
    exists kept. split; [exact Hres | exact Hlen].
Defined.

(** C4.  Call a string a candidate when it is the trimmed symbol text of a
    used or declared entry and is 2 to 128 code units long.
    [prepareSimpleNames] returns candidates only.  When some list of more
    than 100 distinct candidates exists, it returns, with the flag true,
    exactly 100 distinct strings, none of which is shorter than any candidate
    it leaves out.  When no such list exists, every candidate is returned. *)
Theorem prepareSimpleNames_filter_and_cap (simple : Simple.t)
    (fullyQualified : option FullyQualified.t) :
  let candidate (s : jsstring) :=
    ∃ elem, elem ∈ Simple.usedSymbols simple ++ Simple.declaredSymbols simple
            ∧ s = trim (Simple.symbol elem) ∧ 1 < length s < 129 in
  let manyCandidates (n : nat) :=
    ∃ unique : list jsstring,
      NoDup unique ∧ (∀ s, s ∈ unique → candidate s) ∧ n < length unique in
  ∃ kept flag,
    prepareSimpleNames (NamesObject (Some simple) fullyQualified) = Returned (kept, flag)
    ∧ (∀ s, s ∈ kept → candidate s)
    ∧ (manyCandidates 100 →
       flag = true ∧ length kept = 100 ∧ NoDup kept
       ∧ ∀ s t, candidate s → s ∉ kept → t ∈ kept → length s ≤ length t)
    ∧ (¬ manyCandidates 100 → ∀ s, candidate s → s ∈ kept).
Proof.
  intros candidate manyCandidates.
  assert (Hcand : ∀ s, s ∈ filteredSimpleNames simple ↔ candidate s)
    by apply elem_of_filteredSimpleNames.
  assert (Hmany : manyCandidates 100 →
                  100 < length (dedupFirst (filteredSimpleNames simple))).
  { intros (unique & Hnd & Hall & Hlen).
    pose proof (length_dedupFirst_max (filteredSimpleNames simple) unique Hnd) as Hmax.
    assert (length unique ≤ length (dedupFirst (filteredSimpleNames simple))); [| lia].
    apply Hmax. intros s Hs. apply Hcand, Hall, Hs. }
  assert (Hfew : length (dedupFirst (filteredSimpleNames simple)) ≤ 100 →
                 ¬ manyCandidates 100) by (intros ? ?%Hmany; lia).
  pose proof (length_dedupFirst (filteredSimpleNames simple)) as Hdl.
  unfold prepareSimpleNames, maxSimpleNamesLength.
  case_bool_decide as Hraw; [case_bool_decide as Huniq |].
  - eexists _, _. split; [reflexivity |].
    set (sorted := sortByKey length (dedupFirst (filteredSimpleNames simple))).
    assert (Hsub : ∀ s, s ∈ drop (length sorted - 100) sorted →
                        s ∈ filteredSimpleNames simple).
    { intros s Hs. apply elem_of_dedupFirst.
      rewrite <- (sortByKey_Permutation length). fold sorted.
      eapply elem_of_sublist; [exact Hs | apply sublist_drop]. }
    split; [intros s Hs; apply Hcand, Hsub, Hs |].
    split; [intros _ | intros Hno; exfalso; apply Hno].
    + split; [done |]. split.
      { rewrite length_drop. unfold sorted. rewrite length_sortByKey. lia. }
      split.
      { eapply sublist_NoDup; [| apply sublist_drop].
        apply NoDup_sortByKey, NoDup_dedupFirst. }
      intros s t Hs Hout Ht.
      assert (Hin : s ∈ dedupFirst (filteredSimpleNames simple))
        by (apply elem_of_dedupFirst, Hcand, Hs).
      destruct (sortByKey_split length _ (length sorted - 100) s Hin) as [Hl | Hr];
        [| done].
      exact (sortByKey_take_drop length _ _ s t Hl Ht).
    + exists (dedupFirst (filteredSimpleNames simple)).
      split; [apply NoDup_dedupFirst |].
      split; [| done]. intros s Hs. by apply Hcand, elem_of_dedupFirst.
  - eexists _, _. split; [reflexivity |].
    split; [intros s Hs; by apply Hcand, elem_of_dedupFirst |].
    split; [intros ?%Hmany; lia |].
    intros _ s Hs. by apply elem_of_dedupFirst, Hcand.
  - eexists _, _. split; [reflexivity |].
    split; [intros s Hs; by apply Hcand |].
    split; [intros ?%Hmany; lia |].
    intros _ s Hs. by apply Hcand.
Qed.

Lemma prepareSimpleNames_filter_and_cap_witness :
  ∃ kept, prepareSimpleNames (NamesObject (Some manySimpleNames) None)
          = Returned (kept, true)
          ∧ length kept = 100 ∧ NoDup kept.
Proof.
  destruct (prepareSimpleNames_filter_and_cap manySimpleNames None)
    as (kept & flag & Hres & _ & Hcap & _).
  assert (Hmany : ∃ unique : list jsstring,
             NoDup unique
             ∧ (∀ s, s ∈ unique →
                  ∃ elem, elem ∈ Simple.usedSymbols manySimpleNames
                                 ++ Simple.declaredSymbols manySimpleNames
                          ∧ s = trim (Simple.symbol elem) ∧ 1 < length s < 129)
             ∧ 100 < length unique).
  { exists (filteredSimpleNames manySimpleNames).
    split; [apply (bool_decide_unpack _); vm_compute; exact I |].
    split; [intros s Hs; by apply elem_of_filteredSimpleNames |].
    vm_compute. lia. }
  destruct (Hcap Hmany) as (-> & Hlen & Hnd & _).
  exists kept. split; [exact Hres | split; [exact Hlen | exact Hnd]].
Defined.

(** ** Extraction *)

(** C10.  For each of the six language identifiers with a finder, the result
    of [findNamesInRange] is that of the finder called on the text it was
    given, with the extent of the range, whatever the finder, the text and
    the range are; the text is passed as it is even when removing the
    private-use and emoji code units would change it, as it does for
    [decoratedText]. *)
Theorem finder_receives_unmodified_text (finder : NameFinder) (fileText : jsstring)
    (selection : Range) :
  let extent :=
    mkExtent (mkLocation (line (start selection)) (character (start selection)))
             (mkLocation (line (end_ selection)) (character (end_ selection))) in
  findNamesInRange finder fileText (Some selection) (js "java")
  = Java finder fileText extent
  ∧ findNamesInRange finder fileText (Some selection) (js "javascript")
    = Tsx finder fileText extent
  ∧ findNamesInRange finder fileText (Some selection) (js "javascriptreact")
    = Tsx finder fileText extent
  ∧ findNamesInRange finder fileText (Some selection) (js "typescriptreact")
    = Tsx finder fileText extent
  ∧ findNamesInRange finder fileText (Some selection) (js "python")
    = Python finder fileText extent
  ∧ findNamesInRange finder fileText (Some selection) (js "typescript")
    = TypeScript finder fileText extent
  ∧ stripPrivateUse decoratedText = js "ab"
  ∧ stripPrivateUse decoratedText ≠ decoratedText.
Proof.
  intros extent. repeat split; try reflexivity.
  vm_compute. discriminate.
Qed.

Lemma findNamesInRange_unsupported (finder : NameFinder) (fileText : jsstring)
    (selection : Range) (languageId : jsstring) :
  languageId ∉ supportedLanguages →
  findNamesInRange finder fileText (Some selection) languageId
  = Returned (NamesObject None None).
Proof.
  unfold supportedLanguages. rewrite !not_elem_of_cons. intros Hl.
  unfold findNamesInRange.
  repeat (case_decide; [tauto |]). reflexivity.
Qed.

(** C7 (the code departs from the claim).  For a document in a language
    without a finder, [findNamesInRange] yields the empty object and not
    undefined, reading [usedSymbols] of its missing [simple] property throws,
    and so does [extract], whatever the finder and the range of interest. *)
Theorem extract_unsupported_language_throws (finder : NameFinder) (editor : TextEditor)
    (doc : TextDocument) (r : Range) :
  document editor = Some doc →
  rangeOfInterest editor = Some r →
  languageId doc ∉ supportedLanguages →
  extract finder editor = Thrown TypeError.
Proof.
  intros Hdoc Hr Hlang. unfold extract. rewrite Hdoc, Hr.
  by rewrite findNamesInRange_unsupported.
Qed.

Lemma extract_unsupported_language_throws_witness :
  extract (constantFinder NamesUndefined) (editorOn twoLines secondLine)
  = Thrown TypeError.
Proof.
  apply (extract_unsupported_language_throws _ _ twoLines secondLine).
  - reflexivity.
  - vm_compute. reflexivity.
  - apply (bool_decide_unpack _). vm_compute. exact I.
Defined.

(** What does hold of the fallback: when the finder resolves to undefined, or
    to an object whose three lists are empty, a context that [extract]
    returns has its code block as its only simple name. *)
Lemma extract_fallback (finder : NameFinder) (editor : TextEditor)
    (doc : TextDocument) (found : NamesValue) (ctx : FocusAreaContext) :
  document editor = Some doc →
  findNamesInRange finder (getFullText doc) (rangeOfInterest editor) (languageId doc)
  = Returned found →
  found = NamesUndefined
  ∨ found = NamesObject (Some (Simple.mk [] [])) (Some (FullyQualified.mk [])) →
  extract finder editor = Returned (Some ctx) →
  simpleNames (names ctx) = [codeBlock ctx]
  ∧ used (fullyQualifiedNames (names ctx)) = [].
Proof.
  intros Hdoc Hfind Hfound. unfold extract. rewrite Hdoc, Hfind. simpl.
  assert (Hs : prepareSimpleNames found = Returned ([], false))
    by (destruct Hfound as [-> | ->]; reflexivity).
  assert (Hf : prepareFqns found = Returned ([], false))
    by (destruct Hfound as [-> | ->]; reflexivity).
  rewrite Hs, Hf. simpl.
  destruct (rangeOfInterest editor) as [r |]; simpl; [| done].
  destruct (trimRangeAccordingToLimits doc r) as [r1 | |]; simpl; [| done | done].
  destruct (getExtendedCodeBlockRange doc r1) as [r2 | |]; simpl; [| done | done].
  destruct (getSelectionInsideExtendedCodeBlock _ r2) as [sel | |];
    simpl; [| done | done].
  by intros [= <-].
Qed.

Lemma prepareSimpleNames_shape (simple : Simple.t)
    (fullyQualified : option FullyQualified.t) :
  ∃ kept flag,
    prepareSimpleNames (NamesObject (Some simple) fullyQualified) = Returned (kept, flag)
    ∧ (100 < length (filteredSimpleNames simple) → NoDup kept ∧ kept ≠ [])
    ∧ (length (filteredSimpleNames simple) ≤ 100 → kept = filteredSimpleNames simple).
Proof.
  unfold prepareSimpleNames, maxSimpleNamesLength.
  case_bool_decide as Hraw; [case_bool_decide as Huniq |].
  - eexists _, _. split; [reflexivity |]. split; [intros _ | lia].
    split.
    + eapply sublist_NoDup; [| apply sublist_drop].
      apply NoDup_sortByKey, NoDup_dedupFirst.
    + intros Hnil%(f_equal length). revert Hnil.
      rewrite length_drop, length_sortByKey. simpl. lia.
  - eexists _, _. split; [reflexivity |]. split; [intros _ | lia].
    split; [apply NoDup_dedupFirst |].
    apply dedupFirst_nonempty. intros Hnil. rewrite Hnil in Hraw. simpl in Hraw. lia.
  - eexists _, _. split; [reflexivity |]. split; [lia | done].
Qed.

(** C6 as amended.  Let the finder resolve to an object with simple names
    and let [extract] return a context.  The fully qualified names of the
    context are the ones [prepareFqns] returns.  If the filtered list of
    trimmed symbols has more than 100 entries, the simple names of the
    context hold no string twice.  If it has 100 entries or fewer, the simple
    names of the context are that list as it is, copies included, whenever it
    or the list of fully qualified names is not empty; when both are empty,
    the simple names are the code block alone. *)
Theorem extract_simpleNames_dedup_over_cap (finder : NameFinder) (editor : TextEditor)
    (doc : TextDocument) (simple : Simple.t) (fullyQualified : option FullyQualified.t)
    (ctx : FocusAreaContext) :
  document editor = Some doc →
  findNamesInRange finder (getFullText doc) (rangeOfInterest editor) (languageId doc)
  = Returned (NamesObject (Some simple) fullyQualified) →
  extract finder editor = Returned (Some ctx) →
  (100 < length (filteredSimpleNames simple) → NoDup (simpleNames (names ctx)))
  ∧ (length (filteredSimpleNames simple) ≤ 100 →
     (filteredSimpleNames simple ≠ []
      ∨ used (fullyQualifiedNames (names ctx)) ≠ [] →
      simpleNames (names ctx) = filteredSimpleNames simple)
     ∧ (filteredSimpleNames simple = []
        ∧ used (fullyQualifiedNames (names ctx)) = [] →
        simpleNames (names ctx) = [codeBlock ctx]))
  ∧ (∃ flag, prepareFqns (NamesObject (Some simple) fullyQualified)
             = Returned (used (fullyQualifiedNames (names ctx)), flag)).
Proof.
  intros Hdoc Hfind. unfold extract. rewrite Hdoc, Hfind, bind_Returned.
  destruct (prepareSimpleNames_shape simple fullyQualified)
    as (kept & flag & -> & Hmany & Hfew). rewrite bind_Returned.
  destruct (prepareFqns _) as [[usedNames flag'] | |] eqn:Efqn;
    simpl; [| done | done].
  destruct (rangeOfInterest editor) as [r |]; simpl; [| done].
  destruct (trimRangeAccordingToLimits doc r) as [r1 | |]; simpl; [| done | done].
  destruct (getExtendedCodeBlockRange doc r1) as [r2 | |]; simpl; [| done | done].
  destruct (getSelectionInsideExtendedCodeBlock _ r2) as [sel | |];
    simpl; [| done | done].
  intros [= <-]. simpl.
  assert (Hkeep : kept ≠ [] ∨ usedNames ≠ [] →
    (if bool_decide (length kept = 0) && bool_decide (length usedNames = 0)
     then kept ++ [getRangeText doc r1] else kept) = kept).
  { intros [Hne | Hne].
    - rewrite bool_decide_eq_false_2; [done |]. by destruct kept.
    - rewrite (bool_decide_eq_false_2 (length usedNames = 0));
        [by rewrite andb_false_r |].
      by destruct usedNames. }
  split; [| split].
  - intros [Hnd Hne]%Hmany. rewrite Hkeep; [done | by left].
  - intros Hle%Hfew. subst kept. split.
    + apply Hkeep.
    + intros [-> ->]. reflexivity.
  - by exists flag'.
Qed.

Lemma extract_simpleNames_dedup_over_cap_witness :
  (∃ ctx,
     extract (constantFinder (NamesObject (Some manySimpleNames)
                                          (Some (FullyQualified.mk []))))
             (editorOn (sevenLines (js "java")) middleWord)
     = Returned (Some ctx)
     ∧ NoDup (simpleNames (names ctx)))
  ∧ (∃ ctx,
       extract (constantFinder repeatedSymbol)
               (editorOn (sevenLines (js "java")) middleWord)
       = Returned (Some ctx)
       ∧ simpleNames (names ctx) = [js "ab"; js "ab"])
  ∧ (∃ ctx,
       extract (constantFinder onlyQualifiedNames)
               (editorOn (sevenLines (js "java")) middleWord)
       = Returned (Some ctx)
       ∧ simpleNames (names ctx) = [])
  ∧ (∃ ctx,
       extract (constantFinder noNames)
               (editorOn (sevenLines (js "java")) middleWord)
       = Returned (Some ctx)
       ∧ simpleNames (names ctx) = [codeBlock ctx]).
Proof.
  split; [| split; [| split]].
  - eexists. split; [vm_compute; reflexivity |].
    eapply (proj1 (extract_simpleNames_dedup_over_cap
                     (constantFinder (NamesObject (Some manySimpleNames)
                                                  (Some (FullyQualified.mk []))))
                     (editorOn (sevenLines (js "java")) middleWord)
                     (sevenLines (js "java")) manySimpleNames
                     (Some (FullyQualified.mk [])) _ eq_refl eq_refl _)).
    Unshelve.
    + vm_compute. lia.
    + vm_compute. reflexivity.
  - eexists. split; [vm_compute; reflexivity |].
    refine (proj1 (proj1 (proj2 (extract_simpleNames_dedup_over_cap
                     (constantFinder repeatedSymbol)
                     (editorOn (sevenLines (js "java")) middleWord)
                     (sevenLines (js "java"))
                     (Simple.mk [Simple.mkName (js "ab")] [Simple.mkName (js "ab")])
                     (Some (FullyQualified.mk [])) _ eq_refl eq_refl _)) _) _).
    + vm_compute. reflexivity.
    + vm_compute. lia.
    + left. vm_compute. discriminate.
  - eexists. split; [vm_compute; reflexivity |].
    refine (proj1 (proj1 (proj2 (extract_simpleNames_dedup_over_cap
                     (constantFinder onlyQualifiedNames)
                     (editorOn (sevenLines (js "java")) middleWord)
                     (sevenLines (js "java")) (Simple.mk [] [])
                     (Some (FullyQualified.mk fewPairs)) _ eq_refl eq_refl _)) _) _).
    + vm_compute. reflexivity.
    + vm_compute. lia.
    + right. vm_compute. discriminate.
  - eexists. split; [vm_compute; reflexivity |].
    refine (proj2 (proj1 (proj2 (extract_simpleNames_dedup_over_cap
                     (constantFinder noNames)
                     (editorOn (sevenLines (js "java")) middleWord)
                     (sevenLines (js "java")) (Simple.mk [] [])
                     (Some (FullyQualified.mk [])) _ eq_refl eq_refl _)) _) _).
    + vm_compute. reflexivity.
    + vm_compute. lia.
    + split; reflexivity.
Defined.

(** C6 as stated fails: with the same symbol once used and once declared the
    filtered list has two entries, no deduplication takes place, and the
    simple names of the returned context hold that string twice. *)
Lemma extract_keeps_duplicates :
  ∃ ctx,
    extract (constantFinder repeatedSymbol) (editorOn (sevenLines (js "java")) middleWord)
    = Returned (Some ctx)
    ∧ simpleNames (names ctx) = [js "ab"; js "ab"]
    ∧ ¬ NoDup (simpleNames (names ctx)).
Proof.
  eexists. split; [vm_compute; reflexivity |]. simpl.
  split; [reflexivity |].
  rewrite NoDup_cons. intros [Hn _]. apply Hn. left.
Qed.

(** * Further properties of the code *)

(** ** Document order of positions *)

Lemma isBeforeOrEqual_true (p q : Position) :
  isBeforeOrEqual p q = true
  ↔ line p < line q ∨ (line p = line q ∧ character p ≤ character q).
Proof.
  unfold isBeforeOrEqual.
  rewrite orb_true_iff, andb_true_iff, !bool_decide_eq_true. tauto.
Qed.

Lemma isBefore_true (p q : Position) :
  isBefore p q = true
  ↔ line p < line q ∨ (line p = line q ∧ character p < character q).
Proof.
  unfold isBefore.
  rewrite orb_true_iff, andb_true_iff, !bool_decide_eq_true. tauto.
Qed.

Lemma isBefore_false (p q : Position) :
  isBefore p q = false ↔ isBeforeOrEqual q p = true.
Proof.
  rewrite isBeforeOrEqual_true, <- not_true_iff_false, isBefore_true. lia.
Qed.

Lemma isBeforeOrEqual_refl (p : Position) : isBeforeOrEqual p p = true.
Proof. apply isBeforeOrEqual_true. lia. Qed.

Lemma isBeforeOrEqual_trans (p q r : Position) :
  isBeforeOrEqual p q = true → isBeforeOrEqual q r = true →
  isBeforeOrEqual p r = true.
Proof. rewrite !isBeforeOrEqual_true. lia. Qed.

Lemma Position_eq (p q : Position) :
  line p = line q → character p = character q → p = q.
Proof. destruct p, q. simpl. by intros -> ->. Qed.

Lemma orderedRange_ordered (a b : Position) : rangeOrdered (orderedRange a b).
Proof.
  unfold rangeOrdered, orderedRange.
  destruct (isBefore a b) eqn:E; simpl.
  - apply isBefore_true in E. apply isBeforeOrEqual_true. lia.
  - by apply isBefore_false.
Qed.

(** Both positions of [orderedRange a b] are among [a] and [b], the earlier
    one first. *)
Lemma orderedRange_cases (a b : Position) :
  (isBefore a b = true ∧ orderedRange a b = mkRange a b)
  ∨ (isBeforeOrEqual b a = true ∧ orderedRange a b = mkRange b a).
Proof.
  unfold orderedRange. destruct (isBefore a b) eqn:E; [by left |].
  right. split; [by apply isBefore_false | done].
Qed.

(** ** What trimming keeps *)

(** One pass of the trimming loop from a range in document order: the new
    range is in document order, and neither its start nor its end lies after
    the old one. *)
Lemma trimBody_bounds (d : TextDocument) (r r' : Range) :
  rangeOrdered r → line (end_ r) ≠ 0 →
  trimBody d r = Returned r' →
  rangeOrdered r'
  ∧ isBeforeOrEqual (start r') (start r) = true
  ∧ isBeforeOrEqual (end_ r') (end_ r) = true.
Proof.
  intros Hord Hz Hb.
  apply trimBody_Returned in Hb as [_ ->]; [| done].
  split; [apply orderedRange_ordered |].
  set (p := mkPosition (line (end_ r) - 1) (length (lineText d (line (end_ r) - 1)))).
  assert (Hp : isBeforeOrEqual p (end_ r) = true)
    by (apply isBeforeOrEqual_true; simpl; lia).
  destruct (orderedRange_cases (start r) p) as [[_ ->] | [Hle ->]]; simpl.
  - split; [apply isBeforeOrEqual_refl | done].
  - split; [done | exact Hord].
Qed.

Lemma trimLoop_bounds (fuel : nat) (d : TextDocument) (r r' : Range) :
  rangeOrdered r →
  trimLoop fuel d r = Returned r' →
  rangeOrdered r'
  ∧ isBeforeOrEqual (start r') (start r) = true
  ∧ isBeforeOrEqual (end_ r') (end_ r) = true.
Proof.
  revert r. induction fuel as [| fuel IH]; intros r Hord; [done |].
  assert (Hhere : rangeOrdered r ∧ isBeforeOrEqual (start r) (start r) = true
                  ∧ isBeforeOrEqual (end_ r) (end_ r) = true)
    by (repeat split; [done | apply isBeforeOrEqual_refl ..]).
  simpl. destruct (trimGuard d r); [| by intros [= <-]].
  case_bool_decide as Hz; [by intros [= <-] |].
  destruct (trimBody d r) as [r1 | |] eqn:Eb; simpl; [| done | done].
  apply trimBody_bounds in Eb as (Hord1 & Hs1 & He1); [| done | done].
  intros (Hord' & Hs' & He')%IH; [| done].
  eauto using isBeforeOrEqual_trans.
Qed.

(** Trimming a range in document order returns a range in document order
    that neither starts nor ends after the given one: trimming never moves a
    boundary of the range towards the end of the document. *)
Theorem trim_never_moves_later (d : TextDocument) (r r' : Range) :
  rangeOrdered r →
  trimRangeAccordingToLimits d r = Returned r' →
  rangeOrdered r'
  ∧ isBeforeOrEqual (start r') (start r) = true
  ∧ isBeforeOrEqual (end_ r') (end_ r) = true.
Proof. apply trimLoop_bounds. Qed.

Lemma trim_never_moves_later_witness :
  rangeOrdered (mkRange (mkPosition 0 2) (mkPosition 1 0))
  ∧ isBeforeOrEqual (mkPosition 0 2) (start wholeSecondLine) = true
  ∧ isBeforeOrEqual (mkPosition 1 0) (end_ wholeSecondLine) = true.
Proof.
  apply (trim_never_moves_later longSecondLine wholeSecondLine
           (mkRange (mkPosition 0 2) (mkPosition 1 0))).
  - vm_compute. reflexivity.
  - vm_compute. reflexivity.
Defined.

(** The range that trimming returns is within the budget unless it ends on
    the first line of the document, where the loop gives up. *)
Theorem trim_result_within_budget (d : TextDocument) (r r' : Range) :
  trimRangeAccordingToLimits d r = Returned r' →
  length (getRangeText d r') ≤ focusAreaCharLimit ∨ line (end_ r') = 0.
Proof.
  intros [Hg | Hz]%trimLoop_stops; [| by right]. left.
  unfold trimGuard in Hg.
  apply andb_false_iff in Hg as [Hlen | Hempty].
  - apply bool_decide_eq_false in Hlen. lia.
  - apply orb_false_iff in Hempty as [Hl Hc].
    apply bool_decide_eq_false in Hl.
    assert (Hl' : line (start r') = line (end_ r')) by lia.
    rewrite (bool_decide_eq_true_2 _ Hl') in Hc. simpl in Hc.
    apply bool_decide_eq_false in Hc.
    assert (Hc' : character (start r') = character (end_ r')) by lia.
    replace r' with (mkRange (start r') (start r')).
    + rewrite getRangeText_empty. simpl. lia.
    + destruct r' as [s e]. simpl in *. f_equal. by apply Position_eq.
Qed.

Lemma trim_result_within_budget_witness :
  length (getRangeText (sevenLines (js "java"))
            (mkRange (mkPosition 0 0) (mkPosition 2 60))) ≤ focusAreaCharLimit
  ∨ line (end_ (mkRange (mkPosition 0 0) (mkPosition 2 60))) = 0.
Proof.
  apply (trim_result_within_budget (sevenLines (js "java"))
           (wholeDocument (sevenLines (js "java")))).
  vm_compute. reflexivity.
Defined.

Lemma trimLoop_keeps_start (fuel : nat) (d : TextDocument) (r : Range) :
  trimMeasure r < fuel →
  line (start r) ≤ line (end_ r) →
  character (start r) ≤ length (lineText d (line (start r))) →
  line (end_ r) ≤ lineCount d →
  (line (start r) = line (end_ r) → trimGuard d r = false ∨ line (end_ r) = 0) →
  line (start r) = 0
  ∨ length (getRangeText d (restOfLine d (start r))) ≤ focusAreaCharLimit →
  ∃ r', trimLoop fuel d r = Returned r' ∧ start r' = start r.
Proof.
  revert r. induction fuel as [| fuel IH]; intros r Hm Hle Hc Hin Hone Hrest; [lia |].
  simpl. destruct (trimGuard d r) eqn:Hg; [| eauto].
  case_bool_decide as Hz; [eauto |].
  assert (Hlt : line (start r) < line (end_ r)).
  { destruct (decide (line (start r) = line (end_ r))) as [Heq | Hne]; [| lia].
    destruct (Hone Heq); [congruence | lia]. }
  destruct (trimBody_inside d r Hz Hin) as [r1 Hr1]. rewrite Hr1, bind_Returned.
  apply trimBody_Returned in Hr1 as [_ Hr1]; [| done].
  pose proof (trimMeasure_decreases r
    (mkPosition (line (end_ r) - 1) (length (lineText d (line (end_ r) - 1))))
    Hz eq_refl) as Hdec.
  rewrite <- Hr1 in Hdec.
  assert (Hshape : r1 = mkRange (start r)
                          (mkPosition (line (end_ r) - 1)
                                      (length (lineText d (line (end_ r) - 1))))).
  { rewrite Hr1.
    destruct (orderedRange_cases (start r)
                (mkPosition (line (end_ r) - 1)
                            (length (lineText d (line (end_ r) - 1)))))
      as [[_ ->] | [Hback ->]]; [done |].
    apply isBeforeOrEqual_true in Hback. simpl in Hback.
    assert (Hl : line (start r) = line (end_ r) - 1) by lia.
    rewrite <- Hl in Hback.
    assert (Hsame : start r = mkPosition (line (end_ r) - 1)
                                (length (lineText d (line (end_ r) - 1)))).
    { apply Position_eq; simpl; [done |]. rewrite <- Hl. lia. }
    by rewrite <- Hsame. }
  destruct (IH r1) as (r' & Hr' & Hs'); rewrite ?Hshape; simpl; try lia.
  - rewrite <- Hshape. lia.
  - intros Heq. destruct Hrest as [H0 | Hfit]; [right; lia |]. left.
    unfold trimGuard. rewrite <- Heq.
    change (mkRange (start r)
              (mkPosition (line (start r)) (length (lineText d (line (start r))))))
      with (restOfLine d (start r)).
    by rewrite bool_decide_eq_false_2 by lia.
  - exists r'. rewrite <- Hshape. split; [done | by rewrite Hs', Hshape].
Qed.

(** Where trimming does keep the start.  Take a range in document order
    whose start is a position of the document and whose end is not beyond the
    last line.  If the text from its start to the end of that line fits the
    budget (or the start is on the first line), and the range either spans
    several lines or fits the budget itself, then trimming returns a range
    with the same start. *)
Theorem trim_keeps_start (d : TextDocument) (r : Range) :
  rangeOrdered r →
  character (start r) ≤ length (lineText d (line (start r))) →
  line (end_ r) ≤ lineCount d →
  (line (start r) = line (end_ r) →
   length (getRangeText d r) ≤ focusAreaCharLimit ∨ line (end_ r) = 0) →
  line (start r) = 0
  ∨ length (getRangeText d (restOfLine d (start r))) ≤ focusAreaCharLimit →
  ∃ r', trimRangeAccordingToLimits d r = Returned r' ∧ start r' = start r.
Proof.
  intros Hord%rangeOrdered_line_le Hc Hin Hone Hrest.
  apply trimLoop_keeps_start; try done; [apply trimFuel_enough |].
  intros [Hfit | Hz]%Hone; [left | by right].
  unfold trimGuard. by rewrite bool_decide_eq_false_2 by lia.
Qed.

Lemma trim_keeps_start_witness :
  ∃ r', trimRangeAccordingToLimits threeLongLines acrossThreeLines = Returned r'
        ∧ start r' = mkPosition 1 50.
Proof.
  apply (trim_keeps_start threeLongLines acrossThreeLines).
  - vm_compute. reflexivity.
  - vm_compute. lia.
  - vm_compute. lia.
  - vm_compute. intros H. discriminate H.
  - right. vm_compute. lia.
Defined.

(** ** What expanding keeps *)

(** One pass of the expansion loop from a range in document order: the new
    range is in document order and contains the old one. *)
Lemma expandBody_bounds (d : TextDocument) (r r1 : Range) (b b1 : bool) :
  rangeOrdered r →
  expandBody d r b = Returned (r1, b1) →
  rangeOrdered r1
  ∧ isBeforeOrEqual (start r1) (start r) = true
  ∧ isBeforeOrEqual (end_ r) (end_ r1) = true
  ∧ line (end_ r1) < lineCount d `max` S (line (end_ r)).
Proof.
  intros Hord Hb. pose proof (rangeOrdered_line_le r Hord) as Hle.
  destruct (b && bool_decide (line (start r) ≠ 0)) eqn:E.
  - apply andb_true_iff in E as [-> Hs%bool_decide_eq_true].
    apply expandBody_up in Hb as [Hin [= -> ->]]; [| done | done].
    unfold rangeOrdered. rewrite !isBeforeOrEqual_true. simpl.
    split; [lia |]. split; [lia |]. split; [| lia].
    apply isBeforeOrEqual_true, isBeforeOrEqual_refl.
  - apply expandBody_down in Hb as [Hin [= -> ->]]; [| done | done].
    unfold rangeOrdered. rewrite !isBeforeOrEqual_true. simpl.
    split; [lia |]. split; [| split; [lia | lia]].
    apply isBeforeOrEqual_true, isBeforeOrEqual_refl.
Qed.

Lemma expandBody_Thrown (d : TextDocument) (r : Range) (b : bool) (e : Error) :
  line (start r) ≤ line (end_ r) → line (end_ r) < lineCount d →
  expandBody d r b = Thrown e →
  e = IllegalLine (Z.of_nat (lineCount d)).
Proof.
  intros Hle Hin. unfold expandBody.
  destruct (b && bool_decide (line (start r) ≠ 0)) eqn:E.
  - apply andb_true_iff in E as [-> Hs%bool_decide_eq_true].
    replace (Z.of_nat (line (start r)) - 1)%Z
      with (Z.of_nat (line (start r) - 1)) by lia.
    rewrite lineAt_inside by lia. simpl.
    by rewrite newRange_nonneg by lia.
  - destruct (decide (line (end_ r) + 1 < lineCount d)) as [Hnext | Hlast].
    + replace (Z.of_nat (line (end_ r)) + 1)%Z
        with (Z.of_nat (line (end_ r) + 1)) by lia.
      rewrite lineAt_inside by lia. simpl.
      by rewrite newRange_nonneg by lia.
    + rewrite lineAt_outside by lia. simpl. intros [= <-]. f_equal. lia.
Qed.

Lemma expandLoop_Returned (fuel : nat) (d : TextDocument) (r r' : Range) (b : bool) :
  rangeOrdered r → line (end_ r) < lineCount d →
  expandLoop fuel d r b = Returned r' →
  expandGuard d r' = false
  ∧ rangeOrdered r'
  ∧ isBeforeOrEqual (start r') (start r) = true
  ∧ isBeforeOrEqual (end_ r) (end_ r') = true
  ∧ line (end_ r') < lineCount d.
Proof.
  revert r b. induction fuel as [| fuel IH]; intros r b Hord Hin; [done |].
  simpl. destruct (expandGuard d r) eqn:Hg.
  - destruct (expandBody d r b) as [[r1 b1] | |] eqn:Eb; simpl; [| done | done].
    apply expandBody_bounds in Eb as (Hord1 & Hs1 & He1 & Hin1); [| done].
    intros (Hg' & Hord' & Hs' & He' & Hin')%IH; [| done | lia].
    eauto 10 using isBeforeOrEqual_trans.
  - intros [= <-]. eauto 10 using isBeforeOrEqual_refl.
Qed.

Lemma expandLoop_Thrown (fuel : nat) (d : TextDocument) (r : Range) (b : bool)
    (e : Error) :
  rangeOrdered r → line (end_ r) < lineCount d →
  expandLoop fuel d r b = Thrown e →
  e = IllegalLine (Z.of_nat (lineCount d)).
Proof.
  revert r b. induction fuel as [| fuel IH]; intros r b Hord Hin; [done |].
  simpl. destruct (expandGuard d r); [| done].
  destruct (expandBody d r b) as [[r1 b1] | e1 |] eqn:Eb; simpl; [| | done].
  - apply expandBody_bounds in Eb as (Hord1 & _ & _ & Hin1); [| done].
    apply IH; [done | lia].
  - intros [= <-].
    eapply expandBody_Thrown; [by apply rangeOrdered_line_le | done | done].
Qed.

Lemma expand_outcome (d : TextDocument) (r : Range) :
  rangeOrdered r → line (end_ r) < lineCount d →
  (∃ r', getExtendedCodeBlockRange d r = Returned r'
         ∧ focusAreaCharLimit ≤ length (getRangeText d r'))
  ∨ getExtendedCodeBlockRange d r = Thrown (IllegalLine (Z.of_nat (lineCount d))).
Proof.
  intros Hord Hin.
  destruct (getExtendedCodeBlockRange d r) as [r' | e |] eqn:Ex.
  - left. exists r'. split; [done |].
    apply expandLoop_Returned in Ex as (Hg & _ & _ & _ & Hin'); [| done | done].
    unfold expandGuard in Hg.
    rewrite (bool_decide_eq_true_2 (line (end_ r') ≠ lineCount d)) in Hg by lia.
    rewrite orb_true_r, andb_true_r in Hg.
    apply bool_decide_eq_false in Hg. lia.
  - right. f_equal. by eapply expandLoop_Thrown.
  - by apply expand_not_OutOfFuel in Ex.
Qed.

(** Expanding a range in document order that ends on a line of the document
    always finishes, in one of two ways: it returns a range whose text has at
    least as many code units as the budget, or it throws because it asked for
    the line after the last one.  It never returns a text below the budget. *)
Theorem expand_reaches_budget_or_runs_past_end (d : TextDocument) (r : Range) :
  rangeOrdered r → line (end_ r) < lineCount d →
  (∃ r', getExtendedCodeBlockRange d r = Returned r'
         ∧ focusAreaCharLimit ≤ length (getRangeText d r'))
  ∨ getExtendedCodeBlockRange d r = Thrown (IllegalLine (Z.of_nat (lineCount d))).
Proof. apply expand_outcome. Qed.

Lemma expand_reaches_budget_or_runs_past_end_witness :
  (∃ r', getExtendedCodeBlockRange (sevenLines (js "java")) middleWord = Returned r'
         ∧ focusAreaCharLimit ≤ length (getRangeText (sevenLines (js "java")) r'))
  ∨ getExtendedCodeBlockRange (sevenLines (js "java")) middleWord
    = Thrown (IllegalLine (Z.of_nat (lineCount (sevenLines (js "java"))))).
Proof.
  apply (expand_reaches_budget_or_runs_past_end (sevenLines (js "java")) middleWord).
  - vm_compute. reflexivity.
  - vm_compute. lia.
Defined.

Lemma expandLoop_contains (fuel : nat) (d : TextDocument) (r r' : Range) (b : bool) :
  rangeOrdered r →
  expandLoop fuel d r b = Returned r' →
  rangeOrdered r'
  ∧ isBeforeOrEqual (start r') (start r) = true
  ∧ isBeforeOrEqual (end_ r) (end_ r') = true.
Proof.
  revert r b. induction fuel as [| fuel IH]; intros r b Hord; [done |].
  simpl. destruct (expandGuard d r).
  - destruct (expandBody d r b) as [[r1 b1] | |] eqn:Eb; simpl; [| done | done].
    apply expandBody_bounds in Eb as (Hord1 & Hs1 & He1 & _); [| done].
    intros (Hord' & Hs' & He')%IH; [| done].
    split; [done |]. split; eapply isBeforeOrEqual_trans; eassumption.
  - intros [= <-]. split; [done |]. split; apply isBeforeOrEqual_refl.
Qed.

(** The range that expanding returns is in document order and contains the
    range it was given: its start is not after, and its end not before, the
    given ones. *)
Theorem expand_contains_input (d : TextDocument) (r r' : Range) :
  rangeOrdered r →
  getExtendedCodeBlockRange d r = Returned r' →
  rangeOrdered r'
  ∧ isBeforeOrEqual (start r') (start r) = true
  ∧ isBeforeOrEqual (end_ r) (end_ r') = true.
Proof. apply expandLoop_contains. Qed.

Lemma expand_contains_input_witness :
  rangeOrdered (mkRange (mkPosition 1 60) (mkPosition 5 60))
  ∧ isBeforeOrEqual (mkPosition 1 60) (start middleWord) = true
  ∧ isBeforeOrEqual (end_ middleWord) (mkPosition 5 60) = true.
Proof.
  apply (expand_contains_input (sevenLines (js "java")) middleWord
           (mkRange (mkPosition 1 60) (mkPosition 5 60))).
  - vm_compute. reflexivity.
  - vm_compute. reflexivity.
Defined.

(** ** The text of a range is part of the text of the document *)

Lemma length_join (sep : jsstring) (parts : list jsstring) :
  length (join sep parts)
  = sum_list_with length parts + (length parts - 1) * length sep.
Proof.
  induction parts as [| p rest IH]; [done |].
  destruct rest as [| q rest]; [simpl; lia |].
  change (join sep (p :: q :: rest)) with (p ++ sep ++ join sep (q :: rest)).
  rewrite !length_app, IH. simpl. lia.
Qed.

Lemma sum_list_with_sublist (l1 l2 : list jsstring) :
  l1 `sublist_of` l2 → sum_list_with length l1 ≤ sum_list_with length l2.
Proof. induction 1; simpl; lia. Qed.

Lemma length_join_sublist (sep : jsstring) (l1 l2 : list jsstring) :
  l1 `sublist_of` l2 → length (join sep l1) ≤ length (join sep l2).
Proof.
  intros Hsub. rewrite !length_join.
  pose proof (sum_list_with_sublist l1 l2 Hsub).
  pose proof (sublist_length l1 l2 Hsub).
  assert ((length l1 - 1) * length sep ≤ (length l2 - 1) * length sep)
    by (apply Nat.mul_le_mono_r; lia).
  lia.
Qed.

Lemma length_join_pointwise (sep : jsstring) (l1 l2 : list jsstring) :
  Forall2 (λ a b, length a ≤ length b) l1 l2 →
  length (join sep l1) ≤ length (join sep l2).
Proof.
  intros Hall. rewrite !length_join.
  rewrite (Forall2_length _ _ _ Hall).
  assert (sum_list_with length l1 ≤ sum_list_with length l2)
    by (induction Hall; simpl; lia).
  lia.
Qed.

Lemma lineText_lookup (d : TextDocument) (n : nat) :
  n < lineCount d → lines d !! n = Some (lineText d n).
Proof.
  intros Hn. unfold lineText.
  destruct (lookup_lt_is_Some_2 (lines d) n Hn) as [l ->]. done.
Qed.

Lemma validatePosition_inside (d : TextDocument) (p : Position) :
  lineCount d ≠ 0 → line (validatePosition d p) < lineCount d.
Proof.
  intros Hn. unfold validatePosition.
  rewrite bool_decide_eq_false_2 by done.
  case_bool_decide; simpl; lia.
Qed.

Lemma validatePosition_empty (d : TextDocument) (p : Position) :
  lineCount d = 0 → validatePosition d p = mkPosition 0 0.
Proof. intros Hn. unfold validatePosition. by rewrite bool_decide_eq_true_2. Qed.

(** Both positions of a validated range are validated positions. *)
Lemma validateRange_positions (d : TextDocument) (r : Range) :
  ∃ p q, start (validateRange d r) = validatePosition d p
         ∧ end_ (validateRange d r) = validatePosition d q.
Proof.
  unfold validateRange.
  destruct (bool_decide (validatePosition d (start r) = start r)) eqn:Es;
    [destruct (bool_decide (validatePosition d (end_ r) = end_ r)) eqn:Ee |]; simpl.
  - apply bool_decide_eq_true in Es, Ee. by exists (start r), (end_ r).
  - unfold orderedRange. destruct (isBefore _ _); simpl; eauto.
  - unfold orderedRange. destruct (isBefore _ _); simpl; eauto.
Qed.

Lemma validateRange_line_le (d : TextDocument) (r : Range) :
  line (start r) ≤ line (end_ r) →
  line (start (validateRange d r)) ≤ line (end_ (validateRange d r)).
Proof.
  intros Hle. unfold validateRange.
  destruct (_ && _); [done | apply orderedRange_line_le].
Qed.

(** No range renders more code units than the whole document has. *)
Lemma getRangeText_length_le (d : TextDocument) (r : Range) :
  line (start r) ≤ line (end_ r) →
  length (getRangeText d r) ≤ length (getFullText d).
Proof.
  intros Hle. unfold getRangeText, getTextInRange, getFullText.
  pose proof (validateRange_line_le d r Hle) as Hv.
  destruct (validateRange_positions d r) as (p & q & Hp & Hq).
  set (v := validateRange d r) in *.
  destruct (isEmpty v) eqn:Hempty; [simpl; lia |].
  assert (Hn : lineCount d ≠ 0).
  { intros Hz. unfold isEmpty in Hempty. apply bool_decide_eq_false in Hempty.
    apply Hempty. by rewrite Hp, Hq, !validatePosition_empty. }
  assert (Hs : line (start v) < lineCount d)
    by (rewrite Hp; by apply validatePosition_inside).
  assert (He : line (end_ v) < lineCount d)
    by (rewrite Hq; by apply validatePosition_inside).
  case_bool_decide as Hsame.
  - unfold substring. rewrite length_take, length_drop.
    assert (length (lineText d (line (start v))) ≤ length (join (eol d) (lines d))).
    { change (lineText d (line (start v)))
        with (join (eol d) [lineText d (line (start v))]).
      apply length_join_sublist, singleton_sublist_l, list_elem_of_lookup.
      exists (line (start v)). by apply lineText_lookup. }
    lia.
  - set (sl := line (start v)) in *. set (el := line (end_ v)) in *.
    set (middle := take (el - sl - 1) (drop (S sl) (lines d))).
    transitivity (length (join (eol d)
                    (lineText d sl :: middle ++ [lineText d el]))).
    + apply length_join_pointwise.
      constructor; [rewrite length_drop; lia |].
      apply Forall2_app; [by apply Forall_Forall2_diag, Forall_true |].
      constructor; [rewrite length_take; lia | constructor].
    + apply length_join_sublist.
      rewrite <- (take_drop_middle (lines d) sl (lineText d sl))
        by (by apply lineText_lookup).
      apply sublist_inserts_l, sublist_skip.
      assert (Hel : drop (S sl) (lines d) !! (el - sl - 1) = Some (lineText d el)).
      { rewrite lookup_drop.
        replace (S sl + (el - sl - 1)) with el by lia.
        by apply lineText_lookup. }
      rewrite <- (take_drop_middle _ _ _ Hel). fold middle.
      apply sublist_app; [done |].
      apply sublist_skip, sublist_nil_l.
Qed.

(** Expansion cannot succeed on a document that has fewer code units than the
    budget: for every range in document order that ends on a line of the
    document, it runs past the last line and throws. *)
Theorem expand_throws_on_small_document (d : TextDocument) (r : Range) :
  length (getFullText d) < focusAreaCharLimit →
  rangeOrdered r → line (end_ r) < lineCount d →
  getExtendedCodeBlockRange d r = Thrown (IllegalLine (Z.of_nat (lineCount d))).
Proof.
  intros Hsmall Hord Hin.
  destruct (expand_outcome d r Hord Hin) as [(r' & Hr' & Hlen) | Hthrown]; [| done].
  apply expandLoop_contains in Hr' as (Hord' & _ & _); [| done].
  pose proof (getRangeText_length_le d r' (rangeOrdered_line_le r' Hord')). lia.
Qed.

Lemma expand_throws_on_small_document_witness :
  getExtendedCodeBlockRange twoLines secondLine = Thrown (IllegalLine 2).
Proof.
  apply (expand_throws_on_small_document twoLines secondLine).
  - vm_compute. lia.
  - vm_compute. reflexivity.
  - vm_compute. lia.
Defined.

(** ** Remapping the selection *)

Lemma selectionRange_cursor (s : Selection) :
  start (selectionRange s) = end_ (selectionRange s) ↔ anchor s = active s.
Proof.
  unfold selectionRange.
  destruct (orderedRange_cases (anchor s) (active s)) as [[H ->] | [H ->]]; simpl.
  - reflexivity.
  - split; [done | by intros ->].
Qed.

(** [getSelectionInsideExtendedCodeBlock] in full.  A bare cursor gives no
    selection.  Any other selection is moved up by the start line of the
    extended block, its characters unchanged, and comes back with its anchor
    at the earlier and its active end at the later position, whichever way it
    was made.  Should the block start below the selection, the constructor
    rejects the negative line. *)
Theorem selection_remap (originSelection : Selection) (extended : Range) :
  let origin := selectionRange originSelection in
  let shift := line (start extended) in
  (anchor originSelection = active originSelection →
   getSelectionInsideExtendedCodeBlock originSelection extended = Returned None)
  ∧ (anchor originSelection ≠ active originSelection →
     shift ≤ line (start origin) →
     getSelectionInsideExtendedCodeBlock originSelection extended
     = Returned (Some (mkSelection
                         (mkPosition (line (start origin) - shift)
                                     (character (start origin)))
                         (mkPosition (line (end_ origin) - shift)
                                     (character (end_ origin))))))
  ∧ (anchor originSelection ≠ active originSelection →
     line (start origin) < shift →
     getSelectionInsideExtendedCodeBlock originSelection extended
     = Thrown IllegalArgument).
Proof.
  intros origin shift.
  pose proof (selectionRange_cursor originSelection) as Hcur. fold origin in Hcur.
  pose proof (orderedRange_line_le (anchor originSelection) (active originSelection))
    as Hle. fold (selectionRange originSelection) in Hle. fold origin in Hle.
  assert (Hcond : anchor originSelection ≠ active originSelection →
    bool_decide (line (start origin) = line (end_ origin))
    && bool_decide (character (start origin) = character (end_ origin)) = false).
  { intros Hne. apply andb_false_iff.
    destruct (decide (line (start origin) = line (end_ origin))) as [Hl | Hl];
      [| left; by apply bool_decide_eq_false_2].
    right. apply bool_decide_eq_false_2. intros Hc.
    apply Hne, Hcur. by apply Position_eq. }
  unfold getSelectionInsideExtendedCodeBlock. fold origin. fold shift.
  split; [| split].
  - intros Heq%Hcur. rewrite Heq. by rewrite !bool_decide_eq_true_2.
  - intros Hne Hshift. rewrite (Hcond Hne).
    unfold newSelection. rewrite !newPosition_nonneg by lia. simpl.
    do 4 f_equal; lia.
  - intros Hne Hshift. rewrite (Hcond Hne).
    unfold newSelection, newPosition.
    by rewrite (bool_decide_eq_true_2
                  (Z.of_nat (line (start origin)) - Z.of_nat shift < 0)%Z) by lia.
Qed.

Lemma selection_remap_witness :
  getSelectionInsideExtendedCodeBlock (mkSelection (mkPosition 3 1) (mkPosition 3 1))
                                      blockFromLineFive = Returned None
  ∧ getSelectionInsideExtendedCodeBlock backwardSelection blockFromLineFive
    = Returned (Some (mkSelection (mkPosition 5 7) (mkPosition 7 4)))
  ∧ getSelectionInsideExtendedCodeBlock
      (mkSelection (mkPosition 3 1) (mkPosition 4 1)) blockFromLineFive
    = Thrown IllegalArgument.
Proof.
  split; [| split].
  - apply (proj1 (selection_remap (mkSelection (mkPosition 3 1) (mkPosition 3 1))
                    blockFromLineFive)). reflexivity.
  - apply (proj1 (proj2 (selection_remap backwardSelection blockFromLineFive))).
    + vm_compute. discriminate.
    + vm_compute. lia.
  - apply (proj2 (proj2 (selection_remap
                           (mkSelection (mkPosition 3 1) (mkPosition 4 1))
                           blockFromLineFive))).
    + vm_compute. discriminate.
    + vm_compute. lia.
Defined.

(** ** More on the curated names *)

Lemma prepareSimpleNames_cases (simple : Simple.t)
    (fullyQualified : option FullyQualified.t) :
  let raw := filteredSimpleNames simple in
  let unique := dedupFirst raw in
  (length raw ≤ 100
   ∧ prepareSimpleNames (NamesObject (Some simple) fullyQualified)
     = Returned (raw, false))
  ∨ (100 < length raw ∧ length unique ≤ 100
     ∧ prepareSimpleNames (NamesObject (Some simple) fullyQualified)
       = Returned (unique, true))
  ∨ (100 < length raw ∧ 100 < length unique
     ∧ prepareSimpleNames (NamesObject (Some simple) fullyQualified)
       = Returned (drop (length unique - 100) (sortByKey length unique), true)).
Proof.
  intros raw unique. unfold prepareSimpleNames, maxSimpleNamesLength.
  fold raw. fold unique. rewrite length_sortByKey.
  case_bool_decide as Hraw; [case_bool_decide as Huniq |].
  - right. right. done.
  - right. left. split; [done |]. split; [lia | done].
  - left. split; [lia | done].
Qed.

(** The flag of [prepareSimpleNames] tells that the filtered list, copies
    counted, had more than 100 entries.  A name is left out only when more
    than 100 distinct names were found, so the flag can be true although
    every name found is returned. *)
Theorem prepareSimpleNames_flag (simple : Simple.t)
    (fullyQualified : option FullyQualified.t) (kept : list jsstring) (flag : bool) :
  prepareSimpleNames (NamesObject (Some simple) fullyQualified) = Returned (kept, flag) →
  (flag = true ↔ 100 < length (filteredSimpleNames simple))
  ∧ ((∀ s, s ∈ filteredSimpleNames simple → s ∈ kept)
     ↔ length (dedupFirst (filteredSimpleNames simple)) ≤ 100).
Proof.
  destruct (prepareSimpleNames_cases simple fullyQualified)
    as [(Hraw & ->) | [(Hraw & Huniq & ->) | (Hraw & Huniq & ->)]];
    intros [= <- <-].
  - pose proof (length_dedupFirst (filteredSimpleNames simple)).
    split; [split; [done | lia] |]. split; [lia | done].
  - split; [done |]. split; [done |].
    intros _ s Hs. by apply elem_of_dedupFirst.
  - split; [done |]. split; [| lia].
    intros Hall. exfalso.
    set (unique := dedupFirst (filteredSimpleNames simple)) in *.
    set (kept := drop (length unique - 100) (sortByKey length unique)) in *.
    assert (Hlen : length unique ≤ length kept).
    { apply submseteq_length, NoDup_submseteq; [apply NoDup_dedupFirst |].
      intros s Hs. by apply Hall, elem_of_dedupFirst. }
    unfold kept in Hlen. rewrite length_drop, length_sortByKey in Hlen. lia.
Qed.

Lemma prepareSimpleNames_flag_witness :
  prepareSimpleNames (NamesObject (Some oneSymbolOften) None)
  = Returned ([js "ab"], true)
  ∧ (true = true ↔ 100 < length (filteredSimpleNames oneSymbolOften))
  ∧ ((∀ s, s ∈ filteredSimpleNames oneSymbolOften → s ∈ [js "ab"])
     ↔ length (dedupFirst (filteredSimpleNames oneSymbolOften)) ≤ 100).
Proof.
  assert (Hres : prepareSimpleNames (NamesObject (Some oneSymbolOften) None)
                 = Returned ([js "ab"], true)) by (vm_compute; reflexivity).
  split; [exact Hres |].
  exact (prepareSimpleNames_flag oneSymbolOften None [js "ab"] true Hres).
Defined.

Lemma filter_take_prefix {A : Type} (P : A → Prop) `{∀ x, Decision (P x)}
    (n : nat) (l : list A) :
  filter P (take n l) `prefix_of` filter P l.
Proof.
  exists (filter P (drop n l)). by rewrite <- filter_app, take_drop.
Qed.

Lemma filter_drop_suffix {A : Type} (P : A → Prop) `{∀ x, Decision (P x)}
    (n : nat) (l : list A) :
  filter P (drop n l) `suffix_of` filter P l.
Proof.
  exists (filter P (take n l)). by rewrite <- filter_app, take_drop.
Qed.

Lemma sortByKey_take_sorted {A : Type} `{EqDecision A} (key : A → nat)
    (n : nat) (l : list A) :
  StronglySorted (λ a b, key a ≤ key b) (take n (sortByKey key l)).
Proof.
  pose proof (sortByKey_sorted key l) as Hs.
  rewrite <- (take_drop n (sortByKey key l)) in Hs.
  by apply StronglySorted_app_1_l in Hs.
Qed.

Lemma sortByKey_drop_sorted {A : Type} `{EqDecision A} (key : A → nat)
    (n : nat) (l : list A) :
  StronglySorted (λ a b, key a ≤ key b) (drop n (sortByKey key l)).
Proof.
  pose proof (sortByKey_sorted key l) as Hs.
  rewrite <- (take_drop n (sortByKey key l)) in Hs.
  by apply StronglySorted_app_1_r in Hs.
Qed.

(** Order and ties of a truncated list of fully qualified names: the 25
    pairs returned are in ascending order of combined length, and among the
    pairs of one combined length the ones returned are the first seen, in the
    order seen. *)
Theorem prepareFqns_truncated_order (simple : option Simple.t)
    (occurrences : list FullyQualifiedName) :
  25 < length (dedupFirst occurrences) →
  ∃ kept,
    prepareFqns (NamesObject simple (Some (FullyQualified.mk occurrences)))
    = Returned (kept, true)
    ∧ StronglySorted (λ a b, combinedLength a ≤ combinedLength b) kept
    ∧ ∀ k, filter (λ name, combinedLength name = k) kept
           `prefix_of` filter (λ name, combinedLength name = k)
                              (dedupFirst occurrences).
Proof.
  intros Hmany. unfold prepareFqns, maxUsedFullyQualifiedNamesLength. simpl.
  rewrite bool_decide_eq_true_2 by lia.
  eexists. split; [reflexivity |]. split.
  - apply sortByKey_take_sorted.
  - intros k.
    rewrite <- (sortByKey_stable combinedLength k (dedupFirst occurrences)).
    apply filter_take_prefix.
Qed.

Lemma prepareFqns_truncated_order_witness :
  ∃ kept,
    prepareFqns (NamesObject None (Some (FullyQualified.mk thirtyPairs)))
    = Returned (kept, true)
    ∧ StronglySorted (λ a b, combinedLength a ≤ combinedLength b) kept.
Proof.
  destruct (prepareFqns_truncated_order None thirtyPairs) as (kept & Hres & Hs & _).
  - vm_compute. lia.
  - exists kept. split; [exact Hres | exact Hs].
Defined.

(** Order and ties of a truncated list of simple names: the 100 strings
    returned are in ascending order of length, and among the distinct strings
    of one length the ones returned are the last seen, in the order seen. *)
Theorem prepareSimpleNames_truncated_order (simple : Simple.t)
    (fullyQualified : option FullyQualified.t) :
  100 < length (dedupFirst (filteredSimpleNames simple)) →
  ∃ kept,
    prepareSimpleNames (NamesObject (Some simple) fullyQualified)
    = Returned (kept, true)
    ∧ StronglySorted (λ a b : jsstring, length a ≤ length b) kept
    ∧ ∀ k, filter (λ s : jsstring, length s = k) kept
           `suffix_of` filter (λ s : jsstring, length s = k)
                              (dedupFirst (filteredSimpleNames simple)).
Proof.
  intros Hmany.
  destruct (prepareSimpleNames_cases simple fullyQualified)
    as [(Hraw & _) | [(_ & Huniq & _) | (_ & _ & ->)]].
  - pose proof (length_dedupFirst (filteredSimpleNames simple)). lia.
  - lia.
  - eexists. split; [reflexivity |]. split.
    + apply sortByKey_drop_sorted.
    + intros k.
      rewrite <- (sortByKey_stable length k (dedupFirst (filteredSimpleNames simple))).
      apply filter_drop_suffix.
Qed.

Lemma prepareSimpleNames_truncated_order_witness :
  ∃ kept,
    prepareSimpleNames (NamesObject (Some manySimpleNames) None)
    = Returned (kept, true)
    ∧ StronglySorted (λ a b : jsstring, length a ≤ length b) kept.
Proof.
  destruct (prepareSimpleNames_truncated_order manySimpleNames None)
    as (kept & Hres & Hs & _).
  - vm_compute. lia.
  - exists kept. split; [exact Hres | exact Hs].
Defined.

Lemma trimStart_head (s : jsstring) :
  trimStart s = [] ∨ ∃ c rest, trimStart s = c :: rest ∧ isWhiteSpace c = false.
Proof.
  induction s as [| c s IH]; simpl; [by left |].
  destruct (isWhiteSpace c) eqn:Ec; [done | right; eauto].
Qed.

Lemma trimStart_snoc (s : jsstring) (c : N) :
  isWhiteSpace c = false → trimStart (s ++ [c]) = trimStart s ++ [c].
Proof.
  intros Hc. induction s as [| c' s IH]; simpl; [by rewrite Hc |].
  by destruct (isWhiteSpace c').
Qed.

(** A trimmed string is empty or begins and ends with a code unit that is
    not white space. *)
Lemma trim_ends (s : jsstring) :
  trim s = []
  ∨ (∃ c rest, trim s = c :: rest ∧ isWhiteSpace c = false)
    ∧ (∃ c, last (trim s) = Some c ∧ isWhiteSpace c = false).
Proof.
  unfold trim, trimEnd.
  destruct (trimStart_head s) as [-> | (c & rest & -> & Hc)]; [by left |].
  right. rewrite reverse_cons, trimStart_snoc, reverse_snoc by done.
  split; [eauto |].
  destruct (trimStart_head (reverse rest)) as [-> | (c' & rest' & -> & Hc')].
  - exists c. by rewrite reverse_nil.
  - exists c'. rewrite reverse_cons, app_comm_cons, last_snoc. done.
Qed.

Lemma prepareSimpleNames_subset (simple : Simple.t)
    (fullyQualified : option FullyQualified.t) (kept : list jsstring) (flag : bool) :
  prepareSimpleNames (NamesObject (Some simple) fullyQualified) = Returned (kept, flag) →
  ∀ s, s ∈ kept → s ∈ filteredSimpleNames simple.
Proof.
  destruct (prepareSimpleNames_cases simple fullyQualified)
    as [(_ & ->) | [(_ & _ & ->) | (_ & _ & ->)]];
    intros [= <- <-] s Hs.
  - done.
  - by apply elem_of_dedupFirst.
  - apply elem_of_dedupFirst.
    rewrite <- (sortByKey_Permutation length).
    eapply elem_of_sublist; [exact Hs | apply sublist_drop].
Qed.

(** Every simple name that [prepareSimpleNames] returns begins and ends with
    a code unit that is not white space. *)
Theorem simple_names_have_no_outer_white_space (simple : Simple.t)
    (fullyQualified : option FullyQualified.t) (kept : list jsstring) (flag : bool) :
  prepareSimpleNames (NamesObject (Some simple) fullyQualified) = Returned (kept, flag) →
  ∀ s, s ∈ kept →
    (∃ c rest, s = c :: rest ∧ isWhiteSpace c = false)
    ∧ (∃ c, last s = Some c ∧ isWhiteSpace c = false).
Proof.
  intros Hres s Hs.
  apply (prepareSimpleNames_subset _ _ _ _ Hres) in Hs.
  apply elem_of_filteredSimpleNames in Hs as (elem & _ & -> & Hlen).
  destruct (trim_ends (Simple.symbol elem)) as [Hnil | Hends]; [| done].
  rewrite Hnil in Hlen. simpl in Hlen. lia.
Qed.

Lemma simple_names_have_no_outer_white_space_witness :
  (∃ c rest, js "ab" = c :: rest ∧ isWhiteSpace c = false)
  ∧ (∃ c, last (js "ab") = Some c ∧ isWhiteSpace c = false).
Proof.
  apply (simple_names_have_no_outer_white_space
           (Simple.mk [Simple.mkName (js "  ab ")] []) None [js "ab"] false).
  - vm_compute. reflexivity.
  - apply list_elem_of_singleton. reflexivity.
Defined.

(** ** How [extract] composes its parts *)

Lemma prepareSimpleNames_Thrown (found : NamesValue) (e : Error) :
  prepareSimpleNames found = Thrown e → e = TypeError.
Proof.
  destruct found as [| | [simple |] fq]; try (simpl; by intros [= <-]).
  destruct (prepareSimpleNames_cases simple fq)
    as [(_ & ->) | [(_ & _ & ->) | (_ & _ & ->)]]; done.
Qed.

Lemma prepareSimpleNames_not_OutOfFuel (found : NamesValue) :
  prepareSimpleNames found ≠ OutOfFuel.
Proof.
  destruct found as [| | [simple |] fq]; try (simpl; done).
  destruct (prepareSimpleNames_cases simple fq)
    as [(_ & ->) | [(_ & _ & ->) | (_ & _ & ->)]]; done.
Qed.

Lemma prepareSimpleNames_length (found : NamesValue) (kept : list jsstring)
    (flag : bool) :
  prepareSimpleNames found = Returned (kept, flag) → length kept ≤ 100.
Proof.
  destruct found as [| | [simple |] fq]; try (simpl; done).
  - intros [= <- <-]. simpl. lia.
  - destruct (prepareSimpleNames_cases simple fq)
      as [(Hraw & ->) | [(_ & Huniq & ->) | (_ & Huniq & ->)]];
      intros [= <- <-]; try done.
    rewrite length_drop, length_sortByKey. lia.
Qed.

Lemma prepareFqns_cases (found : NamesValue) :
  prepareFqns found = Thrown TypeError
  ∨ ∃ kept flag, prepareFqns found = Returned (kept, flag)
                 ∧ length kept ≤ 25 ∧ NoDup kept.
Proof.
  destruct found as [| | simple [fq |]]; simpl.
  - right. exists [], false. repeat split; [simpl; lia | constructor].
  - right. exists [], false. repeat split; [simpl; lia | constructor].
  - right. unfold maxUsedFullyQualifiedNamesLength.
    case_bool_decide as Hmany; eexists _, _; (split; [reflexivity |]).
    + split; [rewrite length_take; lia |].
      eapply sublist_NoDup; [| apply sublist_take].
      apply NoDup_sortByKey, NoDup_dedupFirst.
    + split; [lia | apply NoDup_dedupFirst].
  - by left.
Qed.

(** A context that [extract] returns, taken apart into the results of the
    steps that made it. *)
Lemma extract_Returned_inv (finder : NameFinder) (editor : TextEditor)
    (ctx : FocusAreaContext) :
  extract finder editor = Returned (Some ctx) →
  ∃ doc found kept flag usedNames flag' r r1 r2 inside,
    document editor = Some doc
    ∧ findNamesInRange finder (getFullText doc) (rangeOfInterest editor)
                       (languageId doc) = Returned found
    ∧ prepareSimpleNames found = Returned (kept, flag)
    ∧ prepareFqns found = Returned (usedNames, flag')
    ∧ rangeOfInterest editor = Some r
    ∧ trimRangeAccordingToLimits doc r = Returned r1
    ∧ getExtendedCodeBlockRange doc r1 = Returned r2
    ∧ getSelectionInsideExtendedCodeBlock (selection editor) r2 = Returned inside
    ∧ ctx = mkFocusAreaContext (getRangeText doc r2) (getRangeText doc r1) inside
              (mkNames
                 (if bool_decide (length kept = 0)
                     && bool_decide (length usedNames = 0)
                  then kept ++ [getRangeText doc r1] else kept)
                 (mkFullyQualifiedNames usedNames)).
Proof.
  unfold extract.
  destruct (document editor) as [doc |]; [| done].
  destruct (findNamesInRange _ _ _ _) as [found | |] eqn:Efind;
    cbn [mbind outcome_bind]; [| done | done].
  destruct (prepareSimpleNames found) as [[kept flag] | |] eqn:Esimple;
    cbn [mbind outcome_bind]; [| done | done].
  destruct (prepareFqns found) as [[usedNames flag'] | |] eqn:Efqn;
    cbn [mbind outcome_bind]; [| done | done].
  destruct (rangeOfInterest editor) as [r |] eqn:Er;
    cbn [from_option mbind outcome_bind]; [| done].
  destruct (trimRangeAccordingToLimits doc r) as [r1 | |] eqn:Etrim;
    cbn [mbind outcome_bind]; [| done | done].
  destruct (getExtendedCodeBlockRange doc r1) as [r2 | |] eqn:Eexpand;
    cbn [mbind outcome_bind]; [| done | done].
  destruct (getSelectionInsideExtendedCodeBlock _ r2) as [inside | |] eqn:Esel;
    cbn [mbind outcome_bind mret outcome_ret]; [| done | done].
  intros [= <-].
  exists doc, found, kept, flag, usedNames, flag', r, r1, r2, inside.
  repeat split; done.
Qed.

(** The name lists of a returned context: at most 100 simple names, at most
    25 fully qualified names, no fully qualified name twice, and never both
    lists empty. *)
Theorem extract_name_lists_bounded (finder : NameFinder) (editor : TextEditor)
    (ctx : FocusAreaContext) :
  extract finder editor = Returned (Some ctx) →
  length (simpleNames (names ctx)) ≤ 100
  ∧ length (used (fullyQualifiedNames (names ctx))) ≤ 25
  ∧ NoDup (used (fullyQualifiedNames (names ctx)))
  ∧ (simpleNames (names ctx) ≠ [] ∨ used (fullyQualifiedNames (names ctx)) ≠ []).
Proof.
  intros (doc & found & kept & flag & usedNames & flag' & r & r1 & r2 & inside
          & _ & _ & Hsimple & Hfqn & _ & _ & _ & _ & ->)%extract_Returned_inv.
  simpl.
  apply prepareSimpleNames_length in Hsimple.
  destruct (prepareFqns_cases found) as [Hthrown | (k & f & Hk & Hlen & Hnd)];
    [congruence |].
  rewrite Hfqn in Hk. injection Hk as <- <-.
  destruct kept as [| s kept], usedNames as [| n usedNames]; simpl in *;
    repeat split; try done; try lia; eauto.
Qed.

Lemma extract_name_lists_bounded_witness :
  ∃ ctx,
    extract (constantFinder NamesUndefined)
            (editorOn (sevenLines (js "java")) middleWord) = Returned (Some ctx)
    ∧ length (simpleNames (names ctx)) ≤ 100
    ∧ length (used (fullyQualifiedNames (names ctx))) ≤ 25
    ∧ NoDup (used (fullyQualifiedNames (names ctx)))
    ∧ (simpleNames (names ctx) ≠ [] ∨ used (fullyQualifiedNames (names ctx)) ≠ []).
Proof.
  eexists. split; [vm_compute; reflexivity |].
  apply (extract_name_lists_bounded (constantFinder NamesUndefined)
           (editorOn (sevenLines (js "java")) middleWord)).
  vm_compute. reflexivity.
Defined.

Lemma isBeforeOrEqual_line_le (p q : Position) :
  isBeforeOrEqual p q = true → line p ≤ line q.
Proof. rewrite isBeforeOrEqual_true. lia. Qed.

Lemma rangeOfInterest_selected (editor : TextEditor) :
  anchor (selection editor) ≠ active (selection editor) →
  rangeOfInterest editor = Some (selectionRange (selection editor)).
Proof.
  intros Hne. unfold rangeOfInterest.
  destruct (bool_decide _ && bool_decide _) eqn:E; [| done].
  apply andb_true_iff in E as [Hl%bool_decide_eq_true Hc%bool_decide_eq_true].
  exfalso. apply Hne, selectionRange_cursor. by apply Position_eq.
Qed.

Lemma rangeOfInterest_cursor (editor : TextEditor) :
  anchor (selection editor) = active (selection editor) →
  rangeOfInterest editor = visibleRanges editor !! 0.
Proof.
  intros Heq%selectionRange_cursor. unfold rangeOfInterest.
  by rewrite Heq, !bool_decide_eq_true_2.
Qed.

(** The selection is remapped without error whenever it is a bare cursor or
    the extended block starts no lower than the selection does; the result
    is absent exactly for a bare cursor. *)
Lemma getSelectionInside_Returned (originSelection : Selection) (extended : Range) :
  anchor originSelection = active originSelection
  ∨ line (start extended) ≤ line (start (selectionRange originSelection)) →
  ∃ inside,
    getSelectionInsideExtendedCodeBlock originSelection extended = Returned inside
    ∧ (inside = None ↔ anchor originSelection = active originSelection).
Proof.
  intros Hok.
  pose proof (orderedRange_line_le (anchor originSelection) (active originSelection))
    as Hle. fold (selectionRange originSelection) in Hle.
  unfold getSelectionInsideExtendedCodeBlock.
  destruct (bool_decide _ && bool_decide _) eqn:E.
  - apply andb_true_iff in E as [Hl%bool_decide_eq_true Hc%bool_decide_eq_true].
    exists None. split; [done |]. split; [| done].
    intros _. apply selectionRange_cursor. by apply Position_eq.
  - assert (Hne : anchor originSelection ≠ active originSelection).
    { intros Heq%selectionRange_cursor. rewrite Heq in E.
      by rewrite !bool_decide_eq_true_2 in E. }
    destruct Hok as [Heq | Hshift]; [done |].
    unfold newSelection. rewrite !newPosition_nonneg by lia. simpl.
    eexists. split; [reflexivity |]. split; [done | done].
Qed.

(** How an extraction can end.  Let the range of interest be in document
    order and end on a line of the document, and let the finder resolve.
    Then [extract] finishes, and either returns a context, or throws a
    TypeError, or throws because the expansion asked for the line after the
    last one.  In particular no position, range or selection it builds is
    ever rejected for a negative coordinate. *)
Theorem extract_outcome (finder : NameFinder) (editor : TextEditor)
    (doc : TextDocument) (r : Range) (found : NamesValue) :
  document editor = Some doc →
  rangeOfInterest editor = Some r →
  rangeOrdered r → line (end_ r) < lineCount doc →
  findNamesInRange finder (getFullText doc) (Some r) (languageId doc)
  = Returned found →
  (∃ ctx, extract finder editor = Returned (Some ctx))
  ∨ extract finder editor = Thrown TypeError
  ∨ extract finder editor = Thrown (IllegalLine (Z.of_nat (lineCount doc))).
Proof.
  intros Hdoc Hr Hord Hin Hfind.
  unfold extract. rewrite Hdoc, Hr, Hfind, bind_Returned.
  destruct (prepareSimpleNames found) as [[kept flag] | e |] eqn:Esimple.
  2: { apply prepareSimpleNames_Thrown in Esimple as ->. right. by left. }
  2: { by apply prepareSimpleNames_not_OutOfFuel in Esimple. }
  rewrite bind_Returned.
  destruct (prepareFqns_cases found) as [-> | (usedNames & flag' & -> & _)];
    [right; by left |].
  rewrite bind_Returned. cbn [from_option]. rewrite bind_Returned.
  pose proof (rangeOrdered_line_le r Hord) as Hle.
  destruct (trimLoop_inside (trimFuel r) doc r (trimFuel_enough r)) as [r1 Hr1];
    [lia | lia |].
  fold (trimRangeAccordingToLimits doc r) in Hr1. rewrite Hr1, bind_Returned.
  destruct (trimLoop_bounds _ _ _ _ Hord Hr1) as (Hord1 & Hs1 & He1).
  apply isBeforeOrEqual_line_le in Hs1, He1.
  destruct (expand_outcome doc r1 Hord1) as [(r2 & Hr2 & _) | Hthrown]; [lia | |].
  2: { rewrite Hthrown. right. by right. }
  rewrite Hr2, bind_Returned.
  destruct (expandLoop_contains _ _ _ _ _ Hord1 Hr2) as (_ & Hs2%isBeforeOrEqual_line_le & _).
  destruct (getSelectionInside_Returned (selection editor) r2) as (inside & -> & _).
  { destruct (decide (anchor (selection editor) = active (selection editor)))
      as [Heq | Hne]; [by left | right].
    rewrite (rangeOfInterest_selected editor Hne) in Hr.
    injection Hr as <-. lia. }
  left. eexists. reflexivity.
Qed.

Lemma extract_outcome_witness :
  (∃ ctx, extract (constantFinder repeatedSymbol)
                  (editorOn (sevenLines (js "java")) middleWord)
          = Returned (Some ctx))
  ∨ extract (constantFinder repeatedSymbol)
            (editorOn (sevenLines (js "java")) middleWord) = Thrown TypeError
  ∨ extract (constantFinder repeatedSymbol)
            (editorOn (sevenLines (js "java")) middleWord)
    = Thrown (IllegalLine (Z.of_nat (lineCount (sevenLines (js "java"))))).
Proof.
  apply (extract_outcome _ _ (sevenLines (js "java")) middleWord repeatedSymbol).
  - reflexivity.
  - vm_compute. reflexivity.
  - vm_compute. reflexivity.
  - vm_compute. lia.
  - vm_compute. reflexivity.
Defined.

(** The blocks of a returned context.  When the range of interest is in
    document order and ends on a line of the document, the extended code
    block of a returned context has at least as many code units as the
    budget and no more than the document, so no context is ever returned
    for a document below the budget; and the selection inside the extended
    block is absent exactly when the selection is a bare cursor. *)
Theorem extract_blocks (finder : NameFinder) (editor : TextEditor)
    (doc : TextDocument) (r : Range) (ctx : FocusAreaContext) :
  document editor = Some doc →
  rangeOfInterest editor = Some r →
  rangeOrdered r → line (end_ r) < lineCount doc →
  extract finder editor = Returned (Some ctx) →
  focusAreaCharLimit ≤ length (extendedCodeBlock ctx)
  ∧ length (extendedCodeBlock ctx) ≤ length (getFullText doc)
  ∧ (selectionInsideExtendedCodeBlock ctx = None
     ↔ anchor (selection editor) = active (selection editor)).
Proof.
  intros Hdoc Hr Hord Hin
    (doc' & found & kept & flag & usedNames & flag' & r' & r1 & r2 & inside
     & Hdoc' & _ & _ & _ & Hr' & Htrim & Hexpand & Hsel & ->)%extract_Returned_inv.
  rewrite Hdoc in Hdoc'. injection Hdoc' as <-.
  rewrite Hr in Hr'. injection Hr' as <-. simpl.
  destruct (trimLoop_bounds _ _ _ _ Hord Htrim) as (Hord1 & Hs1 & He1).
  apply isBeforeOrEqual_line_le in Hs1, He1.
  destruct (expandLoop_contains _ _ _ _ _ Hord1 Hexpand)
    as (Hord2 & Hs2%isBeforeOrEqual_line_le & _).
  split; [| split].
  - destruct (expand_outcome doc r1 Hord1) as [(r2' & Hr2' & Hlen) | Hthrown];
      [lia | | congruence].
    rewrite Hexpand in Hr2'. by injection Hr2' as <-.
  - apply getRangeText_length_le. by apply rangeOrdered_line_le.
  - destruct (getSelectionInside_Returned (selection editor) r2)
      as (inside' & Hinside & Hiff).
    { destruct (decide (anchor (selection editor) = active (selection editor)))
        as [Heq | Hne]; [by left | right].
      rewrite (rangeOfInterest_selected editor Hne) in Hr.
      injection Hr as <-. lia. }
    rewrite Hsel in Hinside. by injection Hinside as <-.
Qed.

Lemma extract_blocks_witness :
  ∃ ctx,
    extract (constantFinder repeatedSymbol)
            (editorOn (sevenLines (js "java")) middleWord) = Returned (Some ctx)
    ∧ focusAreaCharLimit ≤ length (extendedCodeBlock ctx)
    ∧ length (extendedCodeBlock ctx) ≤ length (getFullText (sevenLines (js "java")))
    ∧ (selectionInsideExtendedCodeBlock ctx = None
       ↔ anchor (selection (editorOn (sevenLines (js "java")) middleWord))
         = active (selection (editorOn (sevenLines (js "java")) middleWord))).
Proof.
  eexists. split; [vm_compute; reflexivity |].
  apply (extract_blocks (constantFinder repeatedSymbol)
           (editorOn (sevenLines (js "java")) middleWord)
           (sevenLines (js "java")) middleWord).
  - reflexivity.
  - vm_compute. reflexivity.
  - vm_compute. reflexivity.
  - vm_compute. lia.
  - vm_compute. reflexivity.
Defined.

(** With a bare cursor and no visible range there is no range of interest,
    and [extract] throws a TypeError before any finder is asked, whatever
    the language of the document. *)
Theorem extract_cursor_without_visible_range (finder : NameFinder)
    (editor : TextEditor) (doc : TextDocument) :
  document editor = Some doc →
  anchor (selection editor) = active (selection editor) →
  visibleRanges editor = [] →
  extract finder editor = Thrown TypeError.
Proof.
  intros Hdoc Hcursor Hvisible. unfold extract.
  rewrite Hdoc, (rangeOfInterest_cursor editor Hcursor), Hvisible.
  reflexivity.
Qed.

Lemma extract_cursor_without_visible_range_witness :
  extract (constantFinder repeatedSymbol)
          (mkTextEditor (Some (sevenLines (js "java")))
                        (mkSelection (mkPosition 3 0) (mkPosition 3 0)) [])
  = Thrown TypeError.
Proof.
  apply (extract_cursor_without_visible_range _ _ (sevenLines (js "java")));
    reflexivity.
Defined.

(** ** The text gained by one pass of the expansion *)

Lemma join_cons_cons (sep p q : jsstring) (rest : list jsstring) :
  join sep (p :: q :: rest) = p ++ sep ++ join sep (q :: rest).
Proof. reflexivity. Qed.

Lemma join_cons_app (sep a b : jsstring) (rest : list jsstring) :
  join sep ((a ++ b) :: rest) = a ++ join sep (b :: rest).
Proof.
  destruct rest as [| q rest]; [done |].
  by rewrite !join_cons_cons, <- app_assoc.
Qed.

Lemma join_snoc_split (sep a b c : jsstring) (l : list jsstring) :
  join sep (l ++ [a ++ b; c]) = join sep (l ++ [a]) ++ b ++ sep ++ c.
Proof.
  induction l as [| p l IH].
  - simpl. by rewrite <- !app_assoc.
  - destruct l as [| q l].
    + simpl. by rewrite <- !app_assoc.
    + change ((p :: q :: l) ++ [a ++ b; c]) with (p :: q :: (l ++ [a ++ b; c])).
      change ((p :: q :: l) ++ [a]) with (p :: q :: (l ++ [a])).
      rewrite !join_cons_cons.
      change (q :: (l ++ [a ++ b; c])) with ((q :: l) ++ [a ++ b; c]).
      rewrite IH. simpl. by rewrite <- !app_assoc.
Qed.

Lemma validatePosition_id (d : TextDocument) (p : Position) :
  line p < lineCount d → character p ≤ length (lineText d (line p)) →
  validatePosition d p = p.
Proof.
  intros Hl Hc. unfold validatePosition.
  rewrite !bool_decide_eq_false_2 by lia.
  apply Position_eq; simpl; lia.
Qed.

(** A range whose positions are positions of the document is rendered as it
    is: one line gives a substring, several lines give the rest of the first
    line, the lines between and the beginning of the last line, joined by
    the line break. *)
Lemma getRangeText_inside (d : TextDocument) (r : Range) :
  rangeOrdered r →
  line (end_ r) < lineCount d →
  character (start r) ≤ length (lineText d (line (start r))) →
  character (end_ r) ≤ length (lineText d (line (end_ r))) →
  getRangeText d r
  = if bool_decide (line (start r) = line (end_ r))
    then substring (lineText d (line (start r)))
                   (character (start r)) (character (end_ r))
    else join (eol d)
           (drop (character (start r)) (lineText d (line (start r)))
            :: take (line (end_ r) - line (start r) - 1)
                    (drop (S (line (start r))) (lines d))
            ++ [take (character (end_ r)) (lineText d (line (end_ r)))]).
Proof.
  intros Hord Hin Hsc Hec.
  pose proof (rangeOrdered_line_le r Hord) as Hle.
  unfold getRangeText, getTextInRange, validateRange.
  rewrite !validatePosition_id by lia.
  rewrite !bool_decide_eq_true_2 by done. simpl.
  destruct (isEmpty r) eqn:Hempty; [| done].
  apply bool_decide_eq_true in Hempty.
  rewrite Hempty, bool_decide_eq_true_2 by done.
  unfold substring. by rewrite Nat.sub_diag, take_0.
Qed.

Lemma drop_lines (d : TextDocument) (n : nat) :
  n < lineCount d → drop n (lines d) = lineText d n :: drop (S n) (lines d).
Proof.
  intros Hn. apply drop_S. by apply lineText_lookup.
Qed.

(** What an upward pass adds.  For a range that lies in the document, in
    document order, and does not start on the first line, the upward pass
    returns a range whose text is the old text with, in front of it, a line
    break and the part of the start line before the old start: no code unit
    of the previous line is added. *)
Theorem expand_up_adds_line_break_only (d : TextDocument) (r : Range) :
  rangeOrdered r →
  line (start r) ≠ 0 →
  line (end_ r) < lineCount d →
  character (start r) ≤ length (lineText d (line (start r))) →
  character (end_ r) ≤ length (lineText d (line (end_ r))) →
  ∃ grown,
    expandBody d r true = Returned (grown, false)
    ∧ end_ grown = end_ r
    ∧ getRangeText d grown
      = eol d ++ take (character (start r)) (lineText d (line (start r)))
        ++ getRangeText d r.
Proof.
  intros Hord Hs Hin Hsc Hec.
  pose proof (rangeOrdered_line_le r Hord) as Hle.
  rewrite expandBody_up_inside by lia.
  eexists. split; [reflexivity |]. split; [done |].
  remember (getRangeText d r) as old eqn:Hold.
  rewrite getRangeText_inside; cbn [line start end_ character]; try lia.
  2: { apply isBeforeOrEqual_true. simpl. lia. }
  rewrite bool_decide_eq_false_2 by lia.
  rewrite (drop_ge (lineText d (line (start r) - 1))) by lia.
  replace (S (line (start r) - 1)) with (line (start r)) by lia.
  replace (line (end_ r) - (line (start r) - 1) - 1)
    with (line (end_ r) - line (start r)) by lia.
  rewrite (getRangeText_inside d r) in Hold by done. subst old.
  case_bool_decide as Hsame.
  - rewrite <- Hsame, Nat.sub_diag, take_0. simpl.
    unfold substring. f_equal.
    rewrite take_take_drop. f_equal.
    apply isBeforeOrEqual_true in Hord. lia.
  - replace (line (end_ r) - line (start r))
      with (S (line (end_ r) - line (start r) - 1)) at 1 by lia.
    rewrite (drop_lines d (line (start r))) by lia.
    cbn [take]. rewrite <- app_comm_cons, join_cons_cons, app_nil_l. f_equal.
    rewrite <- join_cons_app. by rewrite take_drop.
Qed.

Lemma expand_up_adds_line_break_only_witness :
  ∃ grown,
    expandBody twoLines secondLine true = Returned (grown, false)
    ∧ end_ grown = end_ secondLine
    ∧ getRangeText twoLines grown
      = eol twoLines
        ++ take (character (start secondLine))
                (lineText twoLines (line (start secondLine)))
        ++ getRangeText twoLines secondLine.
Proof.
  apply (expand_up_adds_line_break_only twoLines secondLine).
  - vm_compute. reflexivity.
  - vm_compute. discriminate.
  - vm_compute. lia.
  - vm_compute. lia.
  - vm_compute. lia.
Defined.

Lemma expandBody_down_inside (d : TextDocument) (r : Range) (b : bool) :
  b && bool_decide (line (start r) ≠ 0) = false →
  line (start r) ≤ line (end_ r) →
  line (end_ r) + 1 < lineCount d →
  expandBody d r b
  = Returned (mkRange (start r)
                      (mkPosition (line (end_ r) + 1)
                                  (length (lineText d (line (end_ r) + 1)))), true).
Proof.
  intros Hb Hle Hin. unfold expandBody. rewrite Hb.
  replace (Z.of_nat (line (end_ r)) + 1)%Z with (Z.of_nat (line (end_ r) + 1)) by lia.
  rewrite lineAt_inside by done. simpl.
  rewrite newRange_nonneg by lia. simpl.
  rewrite !Nat2Z.id, orderedRange_before by (simpl; lia).
  by destruct (start r).
Qed.

(** What a downward pass adds.  For a range that lies in the document, in
    document order, with a line below its end, the downward pass returns a
    range with the same start whose text is the old text followed by the
    rest of the end line, a line break and the whole of the following
    line. *)
Theorem expand_down_adds_following_line (d : TextDocument) (r : Range) (b : bool) :
  rangeOrdered r →
  b && bool_decide (line (start r) ≠ 0) = false →
  line (end_ r) + 1 < lineCount d →
  character (start r) ≤ length (lineText d (line (start r))) →
  character (end_ r) ≤ length (lineText d (line (end_ r))) →
  ∃ grown,
    expandBody d r b = Returned (grown, true)
    ∧ start grown = start r
    ∧ getRangeText d grown
      = getRangeText d r
        ++ drop (character (end_ r)) (lineText d (line (end_ r)))
        ++ eol d ++ lineText d (line (end_ r) + 1).
Proof.
  intros Hord Hb Hin Hsc Hec.
  pose proof (rangeOrdered_line_le r Hord) as Hle.
  rewrite expandBody_down_inside by done.
  eexists. split; [reflexivity |]. split; [done |].
  remember (getRangeText d r) as old eqn:Hold.
  rewrite getRangeText_inside; cbn [line start end_ character]; try lia.
  2: { apply isBeforeOrEqual_true. simpl. lia. }
  rewrite bool_decide_eq_false_2 by lia.
  rewrite (take_ge (lineText d (line (end_ r) + 1))) by lia.
  replace (line (end_ r) + 1 - line (start r) - 1)
    with (line (end_ r) - line (start r)) by lia.
  rewrite (getRangeText_inside d r) in Hold by (done || lia). subst old.
  clear Hb. case_bool_decide as Hsame.
  - rewrite <- Hsame, Nat.sub_diag, take_0. simpl.
    unfold substring. rewrite !app_assoc. f_equal. f_equal.
    apply isBeforeOrEqual_true in Hord.
    replace (drop (character (end_ r)) (lineText d (line (start r))))
      with (drop (character (end_ r) - character (start r))
                 (drop (character (start r)) (lineText d (line (start r)))))
      by (rewrite drop_drop; f_equal; lia).
    by rewrite take_drop.
  - assert (Hel : drop (S (line (start r))) (lines d)
                  !! (line (end_ r) - line (start r) - 1)
                  = Some (lineText d (line (end_ r)))).
    { rewrite lookup_drop.
      replace (S (line (start r)) + (line (end_ r) - line (start r) - 1))
        with (line (end_ r)) by lia.
      apply lineText_lookup. lia. }
    replace (line (end_ r) - line (start r))
      with (S (line (end_ r) - line (start r) - 1)) at 1 by lia.
    rewrite (take_S_r _ _ _ Hel).
    rewrite <- (take_drop (character (end_ r)) (lineText d (line (end_ r)))) at 1.
    rewrite <- app_assoc, app_comm_cons.
    apply (join_snoc_split (eol d)).
Qed.

Lemma expand_down_adds_following_line_witness :
  ∃ grown,
    expandBody (sevenLines (js "java")) middleWord false = Returned (grown, true)
    ∧ start grown = start middleWord
    ∧ getRangeText (sevenLines (js "java")) grown
      = getRangeText (sevenLines (js "java")) middleWord
        ++ drop (character (end_ middleWord))
                (lineText (sevenLines (js "java")) (line (end_ middleWord)))
        ++ eol (sevenLines (js "java"))
        ++ lineText (sevenLines (js "java")) (line (end_ middleWord) + 1).
Proof.
  apply (expand_down_adds_following_line (sevenLines (js "java")) middleWord false).
  - vm_compute. reflexivity.
  - reflexivity.
  - vm_compute. lia.
  - vm_compute. lia.
  - vm_compute. lia.
Defined.

(** ** Expansion at the top of the document and after the budget is met *)

Lemma expandLoop_first_line (fuel : nat) (d : TextDocument) (r r' : Range) (b : bool) :
  line (start r) = 0 →
  expandLoop fuel d r b = Returned r' →
  start r' = start r.
Proof.
  revert r b. induction fuel as [| fuel IH]; intros r b Hz; [done |].
  simpl. destruct (expandGuard d r); [| by intros [= <-]].
  destruct (expandBody d r b) as [[r1 b1] | |] eqn:Eb; simpl; [| done | done].
  apply expandBody_down in Eb as [_ [= -> ->]].
  - intros Hr'%IH; [done | by simpl].
  - rewrite bool_decide_eq_false_2 by lia. apply andb_false_r.
  - lia.
Qed.

(** A range that starts on the first line can only grow downwards: every
    pass takes the downward branch, and the range returned starts where the
    given one does. *)
Theorem expand_from_first_line_keeps_start (d : TextDocument) (r r' : Range) :
  line (start r) = 0 →
  getExtendedCodeBlockRange d r = Returned r' →
  start r' = start r.
Proof. apply expandLoop_first_line. Qed.

Lemma expand_from_first_line_keeps_start_witness :
  start (mkRange (mkPosition 0 10) (mkPosition 3 60)) = mkPosition 0 10.
Proof.
  apply (expand_from_first_line_keeps_start (sevenLines (js "java"))
           (mkRange (mkPosition 0 10) (mkPosition 0 20))
           (mkRange (mkPosition 0 10) (mkPosition 3 60))).
  - reflexivity.
  - vm_compute. reflexivity.
Defined.

(** Expanding the range that an expansion returned changes nothing: for a
    range in document order that ends on a line of the document, the result
    of the expansion is returned as it is when expanded again. *)
Theorem expand_idempotent (d : TextDocument) (r r' : Range) :
  rangeOrdered r → line (end_ r) < lineCount d →
  getExtendedCodeBlockRange d r = Returned r' →
  getExtendedCodeBlockRange d r' = Returned r'.
Proof.
  intros Hord Hin (Hg & _)%expandLoop_Returned; [| done | done].
  unfold getExtendedCodeBlockRange, expandFuel.
  rewrite Nat.add_1_r. simpl. by rewrite Hg.
Qed.

Lemma expand_idempotent_witness :
  getExtendedCodeBlockRange (sevenLines (js "java"))
                            (mkRange (mkPosition 1 60) (mkPosition 5 60))
  = Returned (mkRange (mkPosition 1 60) (mkPosition 5 60)).
Proof.
  apply (expand_idempotent (sevenLines (js "java")) middleWord).
  - vm_compute. reflexivity.
  - vm_compute. lia.
  - vm_compute. reflexivity.
Defined.

(** ** Instances of two earlier lemmas *)

Lemma trim_single_line_moves_start_witness :
  ∃ r', trimRangeAccordingToLimits longSecondLine wholeSecondLine = Returned r'
        ∧ start r' = mkPosition 0 2.
Proof.
  apply (trim_single_line_moves_start longSecondLine wholeSecondLine).
  - reflexivity.
  - vm_compute. discriminate.
  - vm_compute. lia.
  - vm_compute. reflexivity.
Defined.

Lemma extract_fallback_witness :
  ∃ ctx,
    extract (constantFinder NamesUndefined)
            (editorOn (sevenLines (js "java")) middleWord) = Returned (Some ctx)
    ∧ simpleNames (names ctx) = [codeBlock ctx]
    ∧ used (fullyQualifiedNames (names ctx)) = [].
Proof.
  eexists. split; [vm_compute; reflexivity |].
  apply (extract_fallback (constantFinder NamesUndefined)
           (editorOn (sevenLines (js "java")) middleWord)
           (sevenLines (js "java")) NamesUndefined).
  - reflexivity.
  - vm_compute. reflexivity.
  - left. reflexivity.
  - vm_compute. reflexivity.
Defined.
